(** * pdfmerge: page-range parsing, range resolution and the merge driver

    A shallow embedding of [src/pdfmerge.py] and the properties of its
    range parser ([parse_range]), range resolver ([page_indices]) and
    merge driver ([main]).

    Python values are modelled as follows.
    - [int] is [Z] (unbounded; the interpreter's configurable guard on
      the number of digits accepted by [int()] is outside the model).
    - [str] is [string]; a character stands for the code point of the
      same number, so the model covers text over U+0000..U+00FF.  The
      tables of whitespace and digits below are those of CPython for
      that range.
    - [None]-or-value is [option].
    - a raised exception is a value of [exn]; [sys.exit] raises
      [SystemExit].

    The PDF library, the file system and the JSON decoder are not part
    of the program.  The model takes what they answer as given and
    records only what the program itself prints; what the library may
    log by itself, and a failure to open or to write the output file,
    are outside the model. *)

From Stdlib Require Import ZArith String Ascii List DecimalString.
From stdpp Require Import base tactics option list gmap strings.

Local Open Scope Z_scope.
#[local] Set Warnings "-clear-no-such-hyp".
#[local] Set Warnings "-register-all".

(** ** Python built-ins used by the program *)

Module Py.

Inductive exn : Type :=
| ValueError
| IndexError
| TypeError
| KeyError
| FileNotDecryptedError
| LibraryError          (* any other [Exception] raised by the PDF library *)
| SystemExit (code : Z).

(** [exn] instances of [Exception]: everything but [SystemExit]. *)
Definition is_Exception (e : exn) : bool :=
  match e with SystemExit _ => false | _ => true end.

Definition code (c : ascii) : N := N_of_ascii c.

(** [str.isspace] on one character, as used by [str.strip()]. *)
Definition isspace (c : ascii) : bool :=
  let n := code c in
  ((9 <=? n) && (n <=? 13) || (28 <=? n) && (n <=? 32)
   || (n =? 133) || (n =? 160))%N.

(** The whitespace [int()] skips around a literal: the C-locale blanks
    for ASCII, the Unicode spaces above it. *)
Definition int_isspace (c : ascii) : bool :=
  let n := code c in
  ((9 <=? n) && (n <=? 13) || (n =? 32) || (n =? 133) || (n =? 160))%N.

Definition isdigit (c : ascii) : bool :=
  let n := code c in ((48 <=? n) && (n <=? 57))%N.

Definition digit_value (c : ascii) : Z := Z.of_N (code c) - 48.

(** [s.lstrip()], [s.rstrip()], [s.strip()]. *)
Fixpoint lstrip (s : string) : string :=
  match s with
  | String c r => if isspace c then lstrip r else s
  | EmptyString => EmptyString
  end.

Fixpoint rstrip (s : string) : string :=
  match s with
  | String c r =>
      match rstrip r with
      | EmptyString => if isspace c then EmptyString else String c EmptyString
      | r' => String c r'
      end
  | EmptyString => EmptyString
  end.

Definition strip (s : string) : string := rstrip (lstrip s).

(** [s.split(sep)] for a one-character separator. *)
Fixpoint split (sep : ascii) (s : string) : list string :=
  match s with
  | EmptyString => [EmptyString]
  | String c r =>
      if Ascii.eqb c sep then EmptyString :: split sep r
      else match split sep r with
           | t :: ts => String c t :: ts
           | [] => [String c EmptyString]
           end
  end.

(** [sep in s] for a one-character [sep]. *)
Fixpoint contains (sep : ascii) (s : string) : bool :=
  match s with
  | EmptyString => false
  | String c r => Ascii.eqb c sep || contains sep r
  end.

(** [s.split(sep, 1)]: at most one split, at the first separator. *)
Fixpoint split1 (sep : ascii) (s : string) : list string :=
  match s with
  | EmptyString => [EmptyString]
  | String c r =>
      if Ascii.eqb c sep then [EmptyString; r]
      else match split1 sep r with
           | t :: ts => String c t :: ts
           | [] => [String c EmptyString]
           end
  end.

(** [sub in s] for strings: [sub] occurs in [s]. *)
Fixpoint str_in (sub s : string) : bool :=
  String.prefix sub s ||
  match s with
  | EmptyString => false
  | String _ r => str_in sub r
  end.

(** Truthiness of a string: non-empty. *)
Definition truthy (s : string) : bool :=
  match s with EmptyString => false | _ => true end.

(** [int(s)], base ten.  The literal is: blanks, an optional sign,
    digits with single underscores allowed between two digits, blanks.
    [scan s acc us] reads the rest of the digits; [us] records that the
    previous character was an underscore. *)
Fixpoint all_int_space (s : string) : bool :=
  match s with
  | EmptyString => true
  | String c r => int_isspace c && all_int_space r
  end.

Fixpoint int_lskip (s : string) : string :=
  match s with
  | String c r => if int_isspace c then int_lskip r else s
  | EmptyString => EmptyString
  end.

Fixpoint scan (s : string) (acc : Z) (us : bool) : option Z :=
  match s with
  | EmptyString => if us then None else Some acc
  | String c r =>
      if isdigit c then scan r (10 * acc + digit_value c) false
      else if Ascii.eqb c "_" then (if us then None else scan r acc true)
      else if us then None
      else if all_int_space s then Some acc else None
  end.

Definition unsigned_int (s : string) : option Z :=
  match s with
  | String c r => if isdigit c then scan r (digit_value c) false else None
  | EmptyString => None
  end.

Definition int (s : string) : exn + Z :=
  let body :=
    match int_lskip s with
    | String "+" r => unsigned_int r
    | String "-" r => Z.opp <$> unsigned_int r
    | t => unsigned_int t
    end in
  match body with Some n => inr n | None => inl ValueError end.

(** [range(a, b)] as a list. *)
Definition range (a b : Z) : list Z := seqZ a (b - a).

(** [l[i]] with Python's negative indices. *)
Definition index {A} (l : list A) (i : Z) : exn + A :=
  let n := Z.of_nat (length l) in
  let j := if i <? 0 then i + n else i in
  if (0 <=? j) && (j <? n) then
    match l !! Z.to_nat j with Some x => inr x | None => inl IndexError end
  else inl IndexError.

(** [str(n)] for an integer. *)
Definition str_of_int (n : Z) : string := NilZero.string_of_int (Z.to_int n).

(** [os.path.basename] (POSIX): what follows the last slash. *)
Fixpoint basename (p : string) : string :=
  match p with
  | EmptyString => EmptyString
  | String c r => if contains "/" p then basename r else p
  end.

End Py.

(** ** The range parser and the range resolver *)

Definition interval : Type := option Z * option Z.

(** Lines 15-16: [int(a) if a else None]. *)
Definition int_or_None (a : string) : Py.exn + option Z :=
  if Py.truthy a then
    match Py.int a with inl e => inl e | inr n => inr (Some n) end
  else inr None.

(** Lines 13-20: one non-empty token. *)
Definition parse_token (token : string) : Py.exn + interval :=
  if Py.contains "-" token then
    match Py.split1 "-" token with
    | [a; b] =>
        match int_or_None a with
        | inl e => inl e
        | inr start =>
            match int_or_None b with
            | inl e => inl e
            | inr end_ => inr (start, end_)
            end
        end
    | _ => inl Py.ValueError
    end
  else
    match Py.int token with
    | inl e => inl e
    | inr n => inr (Some n, Some n)
    end.

(** Lines 9-21: the loop over the tokens, [parts] being the accumulator. *)
Fixpoint parse_tokens (tokens : list string) (parts : list interval)
  : Py.exn + list interval :=
  match tokens with
  | [] => inr parts
  | token :: rest =>
      let token := Py.strip token in
      if negb (Py.truthy token) then parse_tokens rest parts
      else match parse_token token with
           | inl e => inl e
           | inr p => parse_tokens rest (parts ++ [p])
           end
  end.

Definition parse_range (spec : string) : Py.exn + list interval :=
  parse_tokens (Py.split "," spec) [].

(** Lines 29-33: what one interval appends to [idx]. *)
Definition interval_indices (total : Z) (r : interval) : list Z :=
  let '(s, e) := r in
  let s0 := match s with None => 1 | Some s => s end in
  let e0 := match e with None => total | Some e => e end in
  let s0 := Z.max 1 s0 in
  let e0 := Z.min total e0 in
  if s0 <=? e0 then Py.range (s0 - 1) e0 else [].

(** Lines 35-38: one step of the loop that removes duplicates. *)
Definition dedup_step (acc : gset Z * list Z) (i : Z) : gset Z * list Z :=
  let '(seen, out) := acc in
  if decide (i ∈ seen) then (seen, out) else ({[ i ]} ∪ seen, out ++ [i]).

Definition page_indices (ranges : list interval) (total : Z) : list Z :=
  match ranges with
  | [] => Py.range 0 total
  | _ =>
      let idx := foldl (λ idx r, idx ++ interval_indices total r) [] ranges in
      (foldl dedup_step (∅, []) idx).2
  end.

(** ** The merge driver

    The PDF library, the file system and the JSON decoder are external:
    a [world] gives what they answer, and the run records what it prints,
    which paths it touches and which file it writes. *)

(** What [json.loads] returns: [None], a boolean, a number (kept as its
    literal), a string, a list or a dict with string keys. *)
Inductive json : Type :=
| JNull
| JBool (b : bool)
| JNum (literal : string)
| JStr (s : string)
| JList (l : list json)
| JObj (m : gmap string json).

(** [x == k] for a string [k], as [k in meta] tests it on a list. *)
Definition json_is_str (k : string) (x : json) : bool :=
  match x with JStr s => String.eqb s k | _ => false end.

(** [k in meta]: a key of a dict, an element of a list, a substring of a
    string; anything else is not iterable. *)
Definition json_contains (k : string) (meta : json) : Py.exn + bool :=
  match meta with
  | JObj m => inr (bool_decide (is_Some (m !! k)))
  | JList l => inr (existsb (json_is_str k) l)
  | JStr s => inr (Py.str_in k s)
  | _ => inl Py.TypeError
  end.

(** [meta[k]] for a string [k]: lists and strings take integers only. *)
Definition json_getitem (meta : json) (k : string) : Py.exn + json :=
  match meta with
  | JObj m =>
      match m !! k with Some v => inr v | None => inl Py.KeyError end
  | _ => inl Py.TypeError
  end.

(** Lines 117-120: the loop over the keys, [info] being the dict built. *)
Fixpoint collect_info (meta : json) (keys : list string)
         (info : gmap string json) : Py.exn + gmap string json :=
  match keys with
  | [] => inr info
  | k :: rest =>
      match json_contains k meta with
      | inl e => inl e
      | inr false => collect_info meta rest info
      | inr true =>
          match json_getitem meta k with
          | inl e => inl e
          | inr v => collect_info meta rest (<[("/" +:+ k) := v]> info)
          end
      end
  end.

Section Driver.

(** Page objects are opaque to the program. *)
Context {page : Type}.

(** What a [PdfReader] object answers.  [decrypt_empty] is the exception
    raised by [reader.decrypt("")], if any; what the call returns is not
    looked at by the program.  [pages_error] is the exception raised by
    [len(reader.pages)] on line 93, if any (a document that is still
    locked raises [FileNotDecryptedError]), and [pages] is the sequence
    [reader.pages] gives otherwise. *)
Record reader : Type := Reader {
  is_encrypted : bool;
  decrypt_empty : option Py.exn;
  pages_error : option Py.exn;
  pages : list page;
}.

(** What the file system, the PDF library and the JSON decoder answer.
    The answers are fixed for the run, and only the answers are kept:
    what the library prints or logs while it answers is not. *)
Record world : Type := World {
  path_exists : string → bool;               (* os.path.exists *)
  PdfReader : string → Py.exn + reader;      (* PdfReader(path) *)
  json_loads : string → Py.exn + json;         (* json.loads *)
}.

(** The [PdfWriter] object: pages in the order added, outline items as
    (label, page number) in the order added, and the entries given to
    [add_metadata], as they are given. *)
Record PdfWriter : Type := Writer {
  w_pages : list page;
  w_outline : list (string * Z);
  w_metadata : gmap string json;
}.

(** [PdfWriter()]: no page, no outline item, nothing given to
    [add_metadata] yet.  What the library puts into the information
    dictionary of a new document by itself is not part of the record. *)
Definition new_writer : PdfWriter := Writer [] [] ∅.

Definition add_page (p : page) (w : PdfWriter) : PdfWriter :=
  Writer (w_pages w ++ [p]) (w_outline w) (w_metadata w).

Definition add_outline_item (label : string) (start : Z) (w : PdfWriter)
  : PdfWriter :=
  Writer (w_pages w) (w_outline w ++ [(label, start)]) (w_metadata w).

Definition add_metadata (info : gmap string json) (w : PdfWriter)
  : PdfWriter :=
  Writer (w_pages w) (w_outline w) (info ∪ w_metadata w).

Inductive event : Type :=
| EvExists (path : string)
| EvRead (path : string)
| EvWrite (path : string).

(** What a run has done so far. *)
Record io : Type := IO {
  stdout : list string;
  stderr : list string;
  events : list event;
  files : gmap string PdfWriter;      (* files written by the run *)
}.

Definition io0 : io := IO [] [] [] ∅.

(** State and exceptions. *)
Definition M (A : Type) : Type := io → io * (Py.exn + A).

Definition ret {A} (x : A) : M A := λ s, (s, inr x).
Definition raise {A} (e : Py.exn) : M A := λ s, (s, inl e).
Definition bind {A B} (m : M A) (k : A → M B) : M B :=
  λ s, match m s with
       | (s', inr x) => k x s'
       | (s', inl e) => (s', inl e)
       end.
Definition lift {A} (r : Py.exn + A) : M A := λ s, (s, r).

(** [try: m except ...: h e]; [h e = None] when no clause matches. *)
Definition try_except {A} (m : M A) (h : Py.exn → option (M A)) : M A :=
  λ s, match m s with
       | (s', inl e) =>
           match h e with Some k => k s' | None => (s', inl e) end
       | r => r
       end.

Definition print (line : string) : M unit :=
  λ s, (IO (stdout s ++ [line]) (stderr s) (events s) (files s), inr tt).
Definition eprint (line : string) : M unit :=
  λ s, (IO (stdout s) (stderr s ++ [line]) (events s) (files s), inr tt).
Definition log (ev : event) : M unit :=
  λ s, (IO (stdout s) (stderr s) (events s ++ [ev]) (files s), inr tt).
Definition sys_exit {A} (code : Z) : M A := raise (Py.SystemExit code).

(** Lines 125-126, taken to succeed: what a failing [open] or [write]
    raises and leaves behind is outside the model. *)
Definition write_file (path : string) (w : PdfWriter) : M unit :=
  λ s, (IO (stdout s) (stderr s) (events s ++ [EvWrite path])
           (<[path := w]> (files s)), inr tt).

Notation "x <- c1 ;; c2" := (bind c1 (λ x, c2))
  (at level 100, c1 at next level, right associativity).
Notation "c1 ;; c2" := (bind c1 (λ _, c2))
  (at level 100, right associativity).

Record args : Type := Args {
  inputs : list string;
  output : string;
  range : option (list string);     (* [None] without any [--range] *)
  bookmarks : bool;
  metadata : option string;
  exclude_encrypted : bool;
  quiet : bool;
  verbose : bool;
}.

Definition opt_truthy (s : option string) : bool :=
  match s with Some s => Py.truthy s | None => false end.
Definition len {A} (l : list A) : Z := Z.of_nat (length l).

(** Line 53: the range count is refused. *)
Definition bad_range_count (a : args) : bool :=
  match range a with
  | Some (r :: l) =>
      negb ((len (r :: l) =? 1) || (len (r :: l) =? len (inputs a)))
  | _ => false
  end.

(** Lines 58-65. *)
Definition normalize_ranges (a : args) : list (option string) :=
  match range a with
  | Some (r :: l) =>
      if len (r :: l) =? 1 then replicate (length (inputs a)) (Some r)
      else Some <$> (r :: l)
  | _ => replicate (length (inputs a)) None
  end.

(** Lines 72-91.  The result is [None] on [continue]. *)
Definition load (W : world) (a : args) (in_path : string)
  : M (option reader) :=
  try_except
    (log (EvRead in_path) ;;
     rd <- lift (PdfReader W in_path) ;;
     if is_encrypted rd then
       match decrypt_empty rd with
       | Some e =>
           if Py.is_Exception e then
             if exclude_encrypted a then
               (if negb (quiet a)
                then print ("Skipping encrypted: " +:+ in_path)
                else ret tt) ;;
               ret None
             else
               eprint ("Encrypted file requires password: " +:+ in_path) ;;
               sys_exit 1
           else raise e
       | None => ret (Some rd)
       end
     else ret (Some rd))
    (λ e, match e with
          | Py.FileNotDecryptedError =>
              Some (if exclude_encrypted a then
                      print ("Skipping encrypted: " +:+ in_path) ;;
                      ret None
                    else
                      eprint ("Encrypted file requires password: "
                              +:+ in_path) ;;
                      sys_exit 1)
          | _ => None
          end).

(** Lines 102-103. *)
Fixpoint add_indexed (rd : reader) (indices : list Z) (writer : PdfWriter)
  : Py.exn + PdfWriter :=
  match indices with
  | [] => inr writer
  | i :: rest =>
      match Py.index (pages rd) i with
      | inl e => inl e
      | inr p => add_indexed rd rest (add_page p writer)
      end
  end.

(** Lines 105-106. *)
Definition add_all (rd : reader) (writer : PdfWriter) : PdfWriter :=
  foldl (λ w p, add_page p w) writer (pages rd).

(** Lines 70-112: the body of the loop for one input. *)
Definition process_input (W : world) (a : args) (writer : PdfWriter)
           (in_path : string) (r : option string) : M PdfWriter :=
  log (EvExists in_path) ;;
  if negb (path_exists W in_path) then
    eprint ("Missing file: " +:+ in_path) ;; sys_exit 1
  else
    loaded <- load W a in_path ;;
    match loaded with
    | None => ret writer
    | Some rd =>
        (match pages_error rd with
         | Some e => raise e
         | None => ret tt
         end) ;;
        let total := len (pages rd) in
        rng <- (if opt_truthy r
                then lift (parse_range (default EmptyString r))
                else ret []) ;;
        let indices := page_indices rng total in
        let chosen := if bool_decide (rng = []) then total
                      else len indices in
        (if verbose a then
           let rs := if opt_truthy r then default EmptyString r
                     else "ALL" in
           print (in_path +:+ ": " +:+ Py.str_of_int chosen
                  +:+ " pages (range=" +:+ rs +:+ ")")
         else ret tt) ;;
        writer <- (if bool_decide (rng = [])
                   then ret (add_all rd writer)
                   else lift (add_indexed rd indices writer)) ;;
        if bookmarks a then
          let label := Py.basename in_path in
          let start := len (w_pages writer) - chosen in
          ret (add_outline_item label start writer)
        else ret writer
    end.

(** Line 69: the loop over [zip(args.inputs, ranges)]. *)
Fixpoint process_inputs (W : world) (a : args)
         (todo : list (string * option string)) (writer : PdfWriter)
  : M PdfWriter :=
  match todo with
  | [] => ret writer
  | (in_path, r) :: rest =>
      writer <- process_input W a writer in_path r ;;
      process_inputs W a rest writer
  end.

(** Lines 115-122. *)
Definition apply_metadata (W : world) (a : args) (writer : PdfWriter)
  : M PdfWriter :=
  if opt_truthy (metadata a) then
    meta <- lift (json_loads W (default EmptyString (metadata a))) ;;
    info <- lift (collect_info meta
                    ["Title"; "Author"; "Subject"; "Keywords"]%string ∅) ;;
    if bool_decide (info = ∅) then ret writer
    else ret (add_metadata info writer)
  else ret writer.

Definition main (W : world) (a : args) : M unit :=
  (if bad_range_count a then
     eprint "If using --range, supply one per input or a single range applied to all." ;;
     sys_exit 2
   else ret tt) ;;
  let ranges := normalize_ranges a in
  writer <- process_inputs W a (zip (inputs a) ranges) new_writer ;;
  writer <- apply_metadata W a writer ;;
  write_file (output a) writer ;;
  if negb (quiet a) then print ("Wrote " +:+ output a) else ret tt.

End Driver.

Arguments reader : clear implicits.
Arguments world : clear implicits.
Arguments PdfWriter : clear implicits.
Arguments io : clear implicits.
Arguments M : clear implicits.

Notation "x <- c1 ;; c2" := (bind c1 (λ x, c2))
  (at level 100, c1 at next level, right associativity).
Notation "c1 ;; c2" := (bind c1 (λ _, c2))
  (at level 100, right associativity).

(** ** The words of the specification

    Independent descriptions against which the functions above are
    compared: the grammar of a range specification, and the list without
    its repeats. *)

Definition chars (s : string) : list ascii := list_ascii_of_string s.

(** [sep.join(l)]. *)
Fixpoint join (sep : ascii) (l : list string) : string :=
  match l with
  | [] => EmptyString
  | [t] => t
  | t :: r => t +:+ String sep (join sep r)
  end.

(** [toks] are the [sep]-separated tokens of [s]. *)
Definition is_split (sep : ascii) (s : string) (toks : list string) : Prop :=
  toks ≠ [] ∧ join sep toks = s ∧ Forall (λ t, sep ∉ chars t) toks.

Definition blank (s : string) : Prop :=
  Forall (λ c, Py.isspace c = true) (chars s).

(** [t] is [tok] without the whitespace around it. *)
Definition is_trim (tok t : string) : Prop :=
  (∃ l r, tok = l +:+ t +:+ r ∧ blank l ∧ blank r)
  ∧ (∀ c u, t = String c u → Py.isspace c = false)
  ∧ (∀ u c, t = u +:+ String c EmptyString → Py.isspace c = false).

(** The substrings of a trimmed token: the two sides of its first dash,
    or the token itself when it has no dash. *)
Inductive dash_parts (t : string) : list string → Prop :=
| parts_dash a b :
    t = a +:+ String "-" b → "-"%char ∉ chars a → dash_parts t [a; b]
| parts_plain :
    "-"%char ∉ chars t → dash_parts t [t].

Definition valid_integer (s : string) : Prop := ∃ n, Py.int s = inr n.

(** Some token has a non-empty substring that is not an integer. *)
Definition bad_range_spec (spec : string) : Prop :=
  ∃ toks tok t ps part,
    is_split "," spec toks ∧ tok ∈ toks ∧ is_trim tok t ∧
    dash_parts t ps ∧ part ∈ ps ∧ part ≠ EmptyString ∧ ¬ valid_integer part.

(** One side of a dash: empty is [None], otherwise the integer it spells. *)
Definition bound_of (a : string) (v : option Z) : Prop :=
  (a = EmptyString ∧ v = None) ∨
  (a ≠ EmptyString ∧ ∃ n, Py.int a = inr n ∧ v = Some n).

Inductive token_interval (t : string) : interval → Prop :=
| ti_dash a b s e :
    t = a +:+ String "-" b → "-"%char ∉ chars a →
    bound_of a s → bound_of b e → token_interval t (s, e)
| ti_single n :
    "-"%char ∉ chars t → Py.int t = inr n →
    token_interval t (Some n, Some n).

(** The trimmed tokens that are not empty, and what one of them parses to. *)
Definition live (ts : list string) : list string :=
  filter (λ t, t ≠ EmptyString) ts.

Definition parsed (t : string) (iv : interval) : Prop :=
  parse_token t = inr iv.

(** The intervals a specification spells: one per non-empty trimmed
    token, in order. *)
Definition intervals_of (spec : string) (ivs : list interval) : Prop :=
  ∃ toks ts,
    is_split "," spec toks ∧ Forall2 is_trim toks ts ∧
    Forall2 token_interval (live ts) ivs.

(** A list without its repeats, the first occurrence of each element
    staying where it is. *)
Fixpoint keep_first (l : list Z) : list Z :=
  match l with
  | [] => []
  | x :: r => x :: filter (λ y, y ≠ x) (keep_first r)
  end.

(** The indices of the intervals, one interval after the other. *)
Definition traversal (total : Z) (rs : list interval) : list Z :=
  rs ≫= interval_indices total.

(** The indices one input contributes, as the specification counts them. *)
Definition range_of (r : option string) : Py.exn + list interval :=
  if opt_truthy r then parse_range (default EmptyString r) else inr [].

(** The document is read: it is not encrypted, or [decrypt("")] returns,
    and its pages can be read. *)
Definition accepted {page} (rd : reader page) : Prop :=
  (is_encrypted rd = false ∨ decrypt_empty rd = None)
  ∧ pages_error rd = None.

(** The document is encrypted and [decrypt("")] raises an [Exception]. *)
Definition decrypt_raises {page} (rd : reader page) : Prop :=
  is_encrypted rd = true ∧
  ∃ e, decrypt_empty rd = Some e ∧ Py.is_Exception e = true.

(** The input is passed over by the run. *)
Definition skipped {page} (W : world page) (a : args) (p : string) : bool :=
  exclude_encrypted a &&
  match PdfReader W p with
  | inl Py.FileNotDecryptedError => true
  | inl _ => false
  | inr rd =>
      is_encrypted rd &&
      match decrypt_empty rd with
      | Some e => Py.is_Exception e
      | None => false
      end
  end.

(** The pages of a document at the given 0-based indices. *)
Definition pages_at {page} (l : list page) (idx : list Z) : list page :=
  omap (λ i, l !! Z.to_nat i) idx.

(** How many pages an input adds to the output: none when it is passed
    over, the number of resolved indices when a range was supplied, all
    its pages otherwise. *)
Definition selected_count {page} (W : world page) (a : args)
           (x : string * option string) : Z :=
  if skipped W a x.1 then 0
  else match PdfReader W x.1 with
       | inr rd =>
           let total := len (pages rd) in
           if opt_truthy x.2 then
             match parse_range (default EmptyString x.2) with
             | inr rng => len (page_indices rng total)
             | inl _ => 0
             end
           else total
       | inl _ => 0
       end.

Fixpoint sum_list (l : list Z) : Z :=
  match l with [] => 0 | x :: r => x + sum_list r end.

(** What is left of a run: the files it wrote and how it ended. *)
Definition outcome {page A} (x : io page * (Py.exn + A))
  : gmap string (PdfWriter page) * (Py.exn + A) :=
  (files x.1, x.2).

(** [s] followed by what [d] records. *)
Definition io_app {page} (s d : io page) : io page :=
  IO (stdout s ++ stdout d) (stderr s ++ stderr d) (events s ++ events d)
     (files d ∪ files s).

(** A computation that only adds to the record of the run. *)
Definition framed {page A} (m : M page A) : Prop :=
  ∀ s, m s = (io_app s (m io0).1, (m io0).2).

(** The same arguments with other inputs and ranges. *)
Definition with_inputs (a : args) (ins : list string)
           (rs : option (list string)) : args :=
  Args ins (output a) rs (bookmarks a) (metadata a) (exclude_encrypted a)
       (quiet a) (verbose a).

(** Lines 114-129: the end of [main], once the loop has returned. *)
Definition finish {page} (W : world page) (a : args) (writer : PdfWriter page)
  : M page unit :=
  writer <- apply_metadata W a writer ;;
  write_file (output a) writer ;;
  if negb (quiet a) then print ("Wrote " +:+ output a) else ret tt.

(** A sample world for the examples: a document of five pages, one of
    three pages in a directory, and an encrypted one on which
    [decrypt("")] raises.  Pages are numbered. *)
Definition A5 : reader nat := Reader false None None [1; 2; 3; 4; 5]%nat.
Definition B3 : reader nat := Reader false None None [11; 12; 13]%nat.
Definition locked : reader nat :=
  Reader true (Some Py.LibraryError) None [21]%nat.

Definition sample_world : world nat :=
  World
    (λ p, bool_decide (p ∈ ["A.pdf"; "docs/B.pdf"; "locked.pdf"]%string))
    (λ p, if bool_decide (p = "A.pdf"%string) then inr A5
          else if bool_decide (p = "docs/B.pdf"%string) then inr B3
          else if bool_decide (p = "locked.pdf"%string) then inr locked
          else inl Py.LibraryError)
    (λ _, inl Py.ValueError).

(** [-b -e] with the given inputs and ranges, output to [out.pdf]. *)
Definition sample_args (ins : list string) (rs : option (list string))
  : args :=
  Args ins "out.pdf" rs true None true false false.

(** ** Further descriptions of a run

    What one input of the loop contributes to the output and to the
    record of the run, read off the loop body. *)

(** The pages one input adds to the output, in the order they are added. *)
Definition selected_pages {page} (W : world page) (a : args)
           (x : string * option string) : list page :=
  if skipped W a x.1 then []
  else match PdfReader W x.1, range_of x.2 with
       | inr rd, inr rng =>
           pages_at (pages rd) (page_indices rng (len (pages rd)))
       | _, _ => []
       end.

(** The input exists and is either passed over or read with a range that
    parses. *)
Definition input_ok {page} (W : world page) (a : args)
           (x : string * option string) : Prop :=
  path_exists W x.1 = true ∧
  (skipped W a x.1 = true ∨
   ∃ rd rng, PdfReader W x.1 = inr rd ∧ accepted rd ∧ range_of x.2 = inr rng).

(** The bookmarks of the inputs, the output having [n] pages before them. *)
Fixpoint bookmarks_of {page} (W : world page) (a : args) (n : Z)
         (todo : list (string * option string)) : list (string * Z) :=
  match todo with
  | [] => []
  | x :: rest =>
      (if skipped W a x.1 then [] else [(Py.basename x.1, n)])
      ++ bookmarks_of W a (n + selected_count W a x) rest
  end.

(** What one input prints on the standard output. *)
Definition input_lines {page} (W : world page) (a : args)
           (x : string * option string) : list string :=
  match PdfReader W x.1 with
  | inl _ => ["Skipping encrypted: " +:+ x.1]
  | inr rd =>
      if skipped W a x.1 then
        if quiet a then [] else ["Skipping encrypted: " +:+ x.1]
      else if verbose a then
        [x.1 +:+ ": " +:+ Py.str_of_int (selected_count W a x)
         +:+ " pages (range=" +:+
         (if opt_truthy x.2 then default EmptyString x.2 else "ALL")
         +:+ ")"]
      else []
  end.

(** The calls one input makes to the file system and the PDF library. *)
Definition input_events (x : string * option string) : list event :=
  [EvExists x.1; EvRead x.1].

(** The keys of the metadata object that are copied to the output. *)
Definition metadata_keys : list string :=
  ["Title"; "Author"; "Subject"; "Keywords"]%string.

(** The decoded metadata can be searched for the four keys without an
    error: a dict; or a list or a string in which none of the keys is
    found, since such a value is then indexed with the key. *)
Definition metadata_usable (meta : json) : bool :=
  match meta with
  | JObj _ => true
  | JList l => forallb (λ k, negb (existsb (json_is_str k) l)) metadata_keys
  | JStr s => forallb (λ k, negb (Py.str_in k s)) metadata_keys
  | _ => false
  end.

(** The external collaborators never raise [SystemExit] themselves. *)
Definition world_sane {page} (W : world page) : Prop :=
  (∀ p c, PdfReader W p ≠ inl (Py.SystemExit c))
  ∧ (∀ p rd c, PdfReader W p = inr rd →
               decrypt_empty rd ≠ Some (Py.SystemExit c)
               ∧ pages_error rd ≠ Some (Py.SystemExit c))
  ∧ (∀ m c, json_loads W m ≠ inl (Py.SystemExit c)).

(** A computation that writes no file. *)
Definition keeps_files {page A} (m : M page A) : Prop :=
  ∀ s, files (m s).1 = files s.

Definition is_write (ev : event) : bool :=
  match ev with EvWrite _ => true | _ => false end.

(** A computation that adds calls to the record, none of them a write. *)
Definition no_write {page A} (m : M page A) : Prop :=
  ∀ s, ∃ evs, events (m s).1 = events s ++ evs
              ∧ Forall (λ ev, is_write ev = false) evs.

(** A sample world whose decoder reads one metadata object. *)
Definition sample_meta : gmap string json :=
  {[ "Title"%string := JStr "X"; "Foo"%string := JStr "bar" ]}.

Definition sample_world_meta : world nat :=
  World (path_exists sample_world) (PdfReader sample_world)
        (λ m, if bool_decide (m = "{}"%string) then inr (JObj ∅)
              else if bool_decide (m = "meta"%string)
                   then inr (JObj sample_meta)
              else if bool_decide (m = "7"%string) then inr (JNum "7")
              else inl Py.ValueError).

(** A world in which no document can be opened undecrypted. *)
Definition sample_world_undecrypted : world nat :=
  World (λ _, true) (λ _, inl Py.FileNotDecryptedError)
        (λ _, inl Py.ValueError).

(** A document that stays locked: [decrypt("")] returns without raising
    and leaves it so, and listing its pages raises. *)
Definition sealed : reader nat :=
  Reader true None (Some Py.FileNotDecryptedError) [].

Definition sample_world_sealed : world nat :=
  World (λ p, bool_decide (p ∈ ["A.pdf"; "sealed.pdf"]%string))
        (λ p, if bool_decide (p = "A.pdf"%string) then inr A5
              else if bool_decide (p = "sealed.pdf"%string) then inr sealed
              else inl Py.LibraryError)
        (λ _, inl Py.ValueError).

(** [-b -e -v -m meta] on three inputs with a range each. *)
Definition sample_run_args : args :=
  Args ["A.pdf"; "locked.pdf"; "docs/B.pdf"]%string "out.pdf"
       (Some [""; "1"; "2-,1"]%string) true (Some "meta"%string)
       true false true.

(** * Strings *)

Section Strings.

Implicit Types (s t u : string) (c sep : ascii).

Lemma str_app_cons c s t : String c s +:+ t = String c (s +:+ t).
Proof. done. Qed.

Lemma str_app_nil_l t : EmptyString +:+ t = t.
Proof. done. Qed.

Lemma str_app_nil_r s : s +:+ EmptyString = s.
Proof.
  induction s as [|c s IH]; [done | by rewrite str_app_cons, IH].
Qed.

Lemma str_app_assoc s t u : (s +:+ t) +:+ u = s +:+ (t +:+ u).
Proof.
  induction s as [|c s IH]; [done | by rewrite !str_app_cons, IH].
Qed.

Lemma chars_app s t : chars (s +:+ t) = chars s ++ chars t.
Proof.
  induction s as [|c s IH]; [done |].
  rewrite str_app_cons. unfold chars in *. simpl. by rewrite IH.
Qed.

Lemma chars_cons c s : chars (String c s) = c :: chars s.
Proof. done. Qed.

Lemma eqb_true c sep : Ascii.eqb c sep = true ↔ c = sep.
Proof. apply Ascii.eqb_eq. Qed.

Lemma eqb_false c sep : Ascii.eqb c sep = false ↔ c ≠ sep.
Proof. apply Ascii.eqb_neq. Qed.

Lemma contains_chars sep s : Py.contains sep s = true ↔ sep ∈ chars s.
Proof.
  induction s as [|c s IH].
  - split; [done | by intros ?%elem_of_nil].
  - rewrite chars_cons, elem_of_cons. cbn [Py.contains].
    rewrite orb_true_iff, IH, eqb_true.
    split; (intros [?|?]; [left; congruence | right; assumption]).
Qed.

Lemma contains_false sep s : Py.contains sep s = false ↔ sep ∉ chars s.
Proof.
  rewrite <- contains_chars. destruct (Py.contains sep s); split; congruence.
Qed.

(** *** [split] *)

Lemma join_cons sep t t' l :
  join sep (t :: t' :: l) = t +:+ String sep (join sep (t' :: l)).
Proof. done. Qed.

Lemma split_nonempty sep s : Py.split sep s ≠ [].
Proof.
  destruct s as [|c s]; [done |]. cbn [Py.split].
  destruct (Ascii.eqb c sep); [done |].
  by destruct (Py.split sep s).
Qed.

Lemma split_nosep sep s : sep ∉ chars s → Py.split sep s = [s].
Proof.
  induction s as [|c s IH]; [done |].
  rewrite chars_cons, not_elem_of_cons. intros [Hc Hs].
  cbn [Py.split]. apply not_eq_sym, eqb_false in Hc. rewrite Hc.
  by rewrite (IH Hs).
Qed.

Lemma split_app_sep sep t s :
  sep ∉ chars t → Py.split sep (t +:+ String sep s) = t :: Py.split sep s.
Proof.
  induction t as [|c t IH].
  - intros _. rewrite str_app_nil_l. cbn [Py.split].
    by rewrite (proj2 (eqb_true sep sep) eq_refl).
  - rewrite chars_cons, not_elem_of_cons. intros [Hc Ht].
    rewrite str_app_cons. cbn [Py.split].
    apply not_eq_sym, eqb_false in Hc. rewrite Hc.
    by rewrite (IH Ht).
Qed.

Lemma split_join sep l :
  l ≠ [] → Forall (λ t, sep ∉ chars t) l → Py.split sep (join sep l) = l.
Proof.
  induction l as [|t l IH]; [done |]. intros _ Hall.
  apply Forall_cons in Hall as [Ht Hl].
  destruct l as [|t' l].
  - by apply split_nosep.
  - rewrite join_cons, split_app_sep by done.
    f_equal. by apply IH.
Qed.

Lemma split_is_split sep s : is_split sep s (Py.split sep s).
Proof.
  split; [apply split_nonempty |].
  induction s as [|c s [IHj IHn]].
  - split; [done |]. repeat constructor. by intros ?%elem_of_nil.
  - cbn [Py.split]. destruct (Ascii.eqb c sep) eqn:Hc.
    + apply eqb_true in Hc as ->. split.
      * pose proof (split_nonempty sep s).
        destruct (Py.split sep s) as [|t l] eqn:E; [done |].
        rewrite join_cons, str_app_nil_l. by rewrite IHj.
      * constructor; [by intros ?%elem_of_nil | done].
    + apply eqb_false in Hc.
      pose proof (split_nonempty sep s).
      destruct (Py.split sep s) as [|t l] eqn:E; [done |].
      apply Forall_cons in IHn as [Ht Hl]. split.
      * destruct l as [|t' l].
        -- cbn [join] in *. by rewrite IHj.
        -- rewrite join_cons in *. by rewrite str_app_cons, IHj.
      * constructor; [| done].
        rewrite chars_cons, not_elem_of_cons. split; [congruence | done].
Qed.

(** The tokens of a string are determined by it. *)
Lemma is_split_unique sep s l : is_split sep s l → l = Py.split sep s.
Proof. intros (Hne & <- & Hall). by rewrite split_join. Qed.

(** *** [split(sep, 1)] *)

Lemma split1_first sep a b :
  sep ∉ chars a → Py.split1 sep (a +:+ String sep b) = [a; b].
Proof.
  induction a as [|c a IH].
  - intros _. rewrite str_app_nil_l. cbn [Py.split1].
    by rewrite (proj2 (eqb_true sep sep) eq_refl).
  - rewrite chars_cons, not_elem_of_cons. intros [Hc Ha].
    rewrite str_app_cons. cbn [Py.split1].
    apply not_eq_sym, eqb_false in Hc. rewrite Hc.
    by rewrite (IH Ha).
Qed.

Lemma contains_first sep s :
  sep ∈ chars s → ∃ a b, s = a +:+ String sep b ∧ sep ∉ chars a.
Proof.
  induction s as [|c s IH]; [by intros ?%elem_of_nil |].
  rewrite chars_cons. intros Hin.
  destruct (decide (c = sep)) as [->|Hne].
  - exists EmptyString, s. split; [done | by intros ?%elem_of_nil].
  - apply elem_of_cons in Hin as [?|Hin]; [congruence |].
    destruct (IH Hin) as (a & b & -> & Ha).
    exists (String c a), b. split; [done |].
    rewrite chars_cons, not_elem_of_cons. split; [congruence | done].
Qed.

(** *** [strip] *)

Lemma blank_nil : blank EmptyString.
Proof. constructor. Qed.

Lemma blank_cons c s : blank (String c s) ↔ Py.isspace c = true ∧ blank s.
Proof.
  unfold blank. rewrite chars_cons.
  apply (Forall_cons (λ a, Py.isspace a = true)).
Qed.

Lemma lstrip_blank s : blank s → Py.lstrip s = EmptyString.
Proof.
  induction s as [|c s IH]; [done |].
  intros [Hc Hs]%blank_cons. cbn [Py.lstrip]. rewrite Hc. auto.
Qed.

Lemma lstrip_blank_app l u : blank l → Py.lstrip (l +:+ u) = Py.lstrip u.
Proof.
  induction l as [|c l IH]; [done |].
  intros [Hc Hl]%blank_cons. rewrite str_app_cons. cbn [Py.lstrip].
  rewrite Hc. auto.
Qed.

Lemma lstrip_id u :
  (∀ c v, u = String c v → Py.isspace c = false) → Py.lstrip u = u.
Proof.
  destruct u as [|c v]; [done |]. intros H. cbn [Py.lstrip].
  by rewrite (H c v eq_refl).
Qed.

Lemma lstrip_split s : ∃ l, s = l +:+ Py.lstrip s ∧ blank l.
Proof.
  induction s as [|c s (l & Hl & Hb)].
  - exists EmptyString. split; [done | apply blank_nil].
  - cbn [Py.lstrip]. destruct (Py.isspace c) eqn:Hc.
    + exists (String c l). rewrite str_app_cons, <- Hl.
      split; [done | by apply blank_cons].
    + exists EmptyString. split; [done | apply blank_nil].
Qed.

Lemma lstrip_head s c v : Py.lstrip s = String c v → Py.isspace c = false.
Proof.
  induction s as [|a s IH]; [done |]. cbn [Py.lstrip].
  destruct (Py.isspace a) eqn:Ha; [done |]. by intros [= <- _].
Qed.

Lemma rstrip_cons c s :
  Py.rstrip (String c s) =
  match Py.rstrip s with
  | EmptyString =>
      if Py.isspace c then EmptyString else String c EmptyString
  | r' => String c r'
  end.
Proof. done. Qed.

Lemma rstrip_blank s : blank s → Py.rstrip s = EmptyString.
Proof.
  induction s as [|c s IH]; [done |].
  intros [Hc Hs]%blank_cons. by rewrite rstrip_cons, (IH Hs), Hc.
Qed.

Lemma rstrip_app t r :
  blank r →
  (∀ v c, t = v +:+ String c EmptyString → Py.isspace c = false) →
  Py.rstrip (t +:+ r) = t.
Proof.
  intros Hr. induction t as [|a t IH]; intros Hlast.
  - by apply rstrip_blank.
  - rewrite str_app_cons, rstrip_cons. destruct t as [|b t].
    + rewrite str_app_nil_l, (rstrip_blank r Hr).
      by rewrite (Hlast EmptyString a eq_refl).
    + rewrite IH; [done |]. intros v c Hv.
      apply (Hlast (String a v) c). by rewrite str_app_cons, <- Hv.
Qed.

Lemma rstrip_split s : ∃ r, s = Py.rstrip s +:+ r ∧ blank r.
Proof.
  induction s as [|c s (r & Hr & Hb)].
  - exists EmptyString. split; [done | apply blank_nil].
  - rewrite rstrip_cons. destruct (Py.rstrip s) as [|b w] eqn:E.
    + destruct (Py.isspace c) eqn:Hc.
      * exists (String c s). split; [done |].
        apply blank_cons. split; [done |]. by rewrite Hr.
      * exists r. rewrite !str_app_cons, str_app_nil_l. by rewrite Hr at 1.
    + exists r. rewrite str_app_cons. by rewrite Hr at 1.
Qed.

Lemma rstrip_last s v c :
  Py.rstrip s = v +:+ String c EmptyString → Py.isspace c = false.
Proof.
  revert v. induction s as [|a s IH]; intros v.
  - by destruct v.
  - rewrite rstrip_cons. destruct (Py.rstrip s) as [|b w] eqn:E.
    + destruct (Py.isspace a) eqn:Ha.
      * by destruct v.
      * destruct v as [|a' [|? ?]]; [by intros [= <-] | done | done].
    + destruct v as [|a' v]; [done |].
      rewrite str_app_cons. intros [= _ Hv]. by apply (IH v).
Qed.

Lemma strip_is_trim tok : is_trim tok (Py.strip tok).
Proof.
  unfold Py.strip.
  destruct (lstrip_split tok) as (l & Hl & Hbl).
  destruct (rstrip_split (Py.lstrip tok)) as (r & Hr & Hbr).
  split; [| split].
  - exists l, r. split; [| done]. by rewrite <- Hr.
  - intros c u Hu. rewrite Hu, str_app_cons in Hr.
    by apply lstrip_head in Hr.
  - intros u c Hu. by apply rstrip_last in Hu.
Qed.

(** The trimmed token is determined by the token. *)
Lemma is_trim_unique tok t : is_trim tok t → t = Py.strip tok.
Proof.
  intros ((l & r & -> & Hl & Hr) & Hhead & Hlast).
  unfold Py.strip. rewrite lstrip_blank_app by done.
  destruct t as [|c v].
  - rewrite str_app_nil_l, (lstrip_blank r Hr). done.
  - rewrite lstrip_id.
    + symmetry. by apply rstrip_app.
    + rewrite str_app_cons. intros c' v' [= <- _]. by apply (Hhead c v).
Qed.

End Strings.

(** * The range parser *)

Section Parser.

Implicit Types (s t a b : string) (iv : interval).

Lemma truthy_true s : Py.truthy s = true ↔ s ≠ EmptyString.
Proof. by destruct s. Qed.

Lemma truthy_false s : Py.truthy s = false ↔ s = EmptyString.
Proof. by destruct s. Qed.

(** [int] raises nothing but [ValueError]. *)
Lemma int_cases s : valid_integer s ∨ Py.int s = inl Py.ValueError.
Proof.
  unfold valid_integer, Py.int.
  match goal with |- context [match ?b with Some _ => _ | None => _ end] =>
    destruct b end; eauto.
Qed.

Lemma int_invalid s : ¬ valid_integer s ↔ Py.int s = inl Py.ValueError.
Proof.
  split.
  - intros H. by destruct (int_cases s).
  - intros H [n Hn]. congruence.
Qed.

Lemma int_or_None_inr a v : int_or_None a = inr v ↔ bound_of a v.
Proof.
  unfold int_or_None, bound_of. destruct (Py.truthy a) eqn:Ha.
  - apply truthy_true in Ha. split.
    + destruct (Py.int a) as [e|n] eqn:E; [done |].
      intros [= <-]. right. eauto.
    + intros [[? _]|(_ & n & -> & ->)]; done.
  - apply truthy_false in Ha. split.
    + intros [= <-]. by left.
    + intros [[_ ->]|[? _]]; done.
Qed.

Lemma int_or_None_inl a e :
  int_or_None a = inl e ↔
  a ≠ EmptyString ∧ ¬ valid_integer a ∧ e = Py.ValueError.
Proof.
  unfold int_or_None. destruct (Py.truthy a) eqn:Ha.
  - apply truthy_true in Ha. destruct (int_cases a) as [[n Hn]|Hn].
    + rewrite Hn. split; [done |]. intros (_ & H & _). destruct H. by exists n.
    + rewrite Hn. split.
      * intros [= <-]. by rewrite int_invalid.
      * by intros (_ & _ & ->).
  - apply truthy_false in Ha. split; [done | by intros []].
Qed.

Lemma dash_token a b :
  "-"%char ∉ chars a →
  Py.contains "-" (a +:+ String "-" b) = true ∧
  Py.split1 "-" (a +:+ String "-" b) = [a; b].
Proof.
  intros Ha. split; [| by apply split1_first].
  apply contains_chars. rewrite chars_app, chars_cons.
  apply elem_of_app. right. by left.
Qed.

(** A token parses to exactly the interval it spells. *)
Lemma parse_token_inr t iv : parse_token t = inr iv ↔ token_interval t iv.
Proof.
  split.
  - unfold parse_token. destruct (Py.contains "-" t) eqn:Hc.
    + apply contains_chars, contains_first in Hc as (a & b & -> & Ha).
      rewrite split1_first by done.
      destruct (int_or_None a) as [?|s] eqn:Es; [done |].
      destruct (int_or_None b) as [?|e] eqn:Ee; [done |].
      intros [= <-]. eapply ti_dash; eauto; by apply int_or_None_inr.
    + apply contains_false in Hc.
      destruct (Py.int t) as [?|n] eqn:En; [done |].
      intros [= <-]. by apply ti_single.
  - intros [a b s e -> Ha Hs He | n Hd Hn]; unfold parse_token.
    + destruct (dash_token a b Ha) as [-> ->].
      apply int_or_None_inr in Hs, He. by rewrite Hs, He.
    + apply contains_false in Hd. by rewrite Hd, Hn.
Qed.

(** A token is refused exactly when one of its non-empty substrings is
    not an integer. *)
Lemma parse_token_inl t e :
  parse_token t = inl e →
  e = Py.ValueError ∧
  (t ≠ EmptyString →
   ∃ ps part, dash_parts t ps ∧ part ∈ ps ∧ part ≠ EmptyString ∧
              ¬ valid_integer part).
Proof.
  unfold parse_token. destruct (Py.contains "-" t) eqn:Hc.
  - apply contains_chars, contains_first in Hc as (a & b & -> & Ha).
    rewrite split1_first by done.
    destruct (int_or_None a) as [ea|s] eqn:Es.
    + intros [= <-]. apply int_or_None_inl in Es as (? & ? & ->).
      split; [done |]. intros _. exists [a; b], a.
      split; [by constructor |]. split; [by left | done].
    + destruct (int_or_None b) as [eb|e'] eqn:Ee; [| done].
      intros [= <-]. apply int_or_None_inl in Ee as (? & ? & ->).
      split; [done |]. intros _. exists [a; b], b.
      split; [by constructor |]. split; [by right; left | done].
  - apply contains_false in Hc.
    destruct (int_cases t) as [[n Hn]|Hn]; rewrite Hn; [done |].
    intros [= <-]. split; [done |]. intros Ht. exists [t], t.
    split; [by constructor |]. split; [by left |].
    split; [done | by apply int_invalid].
Qed.

Lemma parse_token_bad t ps part :
  dash_parts t ps → part ∈ ps → part ≠ EmptyString →
  ¬ valid_integer part → parse_token t = inl Py.ValueError.
Proof.
  intros [a b -> Ha | Hd] Hin Hne Hbad; unfold parse_token.
  - destruct (dash_token a b Ha) as [-> ->].
    apply elem_of_cons in Hin as [->|Hin].
    + by rewrite (proj2 (int_or_None_inl a Py.ValueError)).
    + apply list_elem_of_singleton in Hin as ->.
      destruct (int_or_None a) as [ea|s] eqn:Es.
      * by apply int_or_None_inl in Es as (_ & _ & ->).
      * by rewrite (proj2 (int_or_None_inl b Py.ValueError)).
  - apply list_elem_of_singleton in Hin as ->.
    apply contains_false in Hd. apply int_invalid in Hbad.
    by rewrite Hd, Hbad.
Qed.

Lemma dash_parts_nonempty t ps part :
  dash_parts t ps → part ∈ ps → part ≠ EmptyString → t ≠ EmptyString.
Proof.
  intros [a b -> Ha | Hd] Hin Hne.
  - by destruct a.
  - by apply list_elem_of_singleton in Hin as ->.
Qed.

(** The loop either stops at a refused token or returns one interval
    per non-empty trimmed token, in order, after [parts]. *)
Lemma parse_tokens_spec toks parts :
  (parse_tokens toks parts = inl Py.ValueError ∧
   ∃ tok, tok ∈ toks ∧ Py.strip tok ≠ EmptyString ∧
          parse_token (Py.strip tok) = inl Py.ValueError)
  ∨ (∃ ivs, parse_tokens toks parts = inr (parts ++ ivs) ∧
            Forall2 parsed (live (Py.strip <$> toks)) ivs).
Proof.
  revert parts. induction toks as [|tok toks IH]; intros parts.
  - right. exists []. rewrite app_nil_r. split; [done | constructor].
  - cbn [parse_tokens]. unfold live. rewrite fmap_cons, filter_cons.
    destruct (Py.truthy (Py.strip tok)) eqn:Ht; cbn [negb].
    + apply truthy_true in Ht. rewrite decide_True by done.
      destruct (parse_token (Py.strip tok)) as [e|iv] eqn:Ep.
      * apply parse_token_inl in Ep as H. destruct H as [-> _].
        left. split; [done |]. exists tok. split; [by left | done].
      * destruct (IH (parts ++ [iv])) as [(He & tok' & ? & ? & ?)|(ivs & He & Hall)].
        -- left. split; [done |]. exists tok'. split; [by right | done].
        -- right. exists (iv :: ivs). rewrite He, <- app_assoc.
           split; [done |]. by constructor.
    + apply truthy_false in Ht. rewrite decide_False by (by intros ?).
      destruct (IH parts) as [(He & tok' & ? & ? & ?)|(ivs & He & Hall)].
      * left. split; [done |]. exists tok'. split; [by right | done].
      * right. by exists ivs.
Qed.

Lemma parse_range_inl spec e :
  parse_range spec = inl e → e = Py.ValueError ∧ bad_range_spec spec.
Proof.
  unfold parse_range. intros He.
  destruct (parse_tokens_spec (Py.split "," spec) [])
    as [(He' & tok & Hin & Hne & Hp)|(ivs & He' & _)]; [| congruence].
  split; [congruence |].
  apply parse_token_inl in Hp as [_ Hp].
  destruct (Hp Hne) as (ps & part & ? & ? & ? & ?).
  exists (Py.split "," spec), tok, (Py.strip tok), ps, part.
  split; [apply split_is_split |]. split; [done |].
  split; [apply strip_is_trim | done].
Qed.

Lemma bad_range_spec_raises spec :
  bad_range_spec spec → parse_range spec = inl Py.ValueError.
Proof.
  intros (toks & tok & t & ps & part & Hs & Hin & Ht & Hps & Hp & Hne & Hbad).
  apply is_split_unique in Hs as ->. apply is_trim_unique in Ht as ->.
  pose proof (parse_token_bad _ _ _ Hps Hp Hne Hbad) as Hraise.
  pose proof (dash_parts_nonempty _ _ _ Hps Hp Hne) as Hlive.
  unfold parse_range.
  destruct (parse_tokens_spec (Py.split "," spec) [])
    as [[He _]|(ivs & _ & Hall)]; [done | exfalso].
  assert (Py.strip tok ∈ live (Py.strip <$> Py.split "," spec)) as Hmem.
  { apply list_elem_of_filter. split; [done |]. by apply list_elem_of_fmap_2. }
  apply list_elem_of_lookup in Hmem as [i Hi].
  destruct (Forall2_lookup_l _ _ _ _ _ Hall Hi) as (iv & _ & Hiv).
  unfold parsed in Hiv. congruence.
Qed.

End Parser.

(** * The range resolver *)

Section Resolver.

Implicit Types (l idx out : list Z) (seen : gset Z) (rs : list interval).

Lemma elem_of_range a b i : i ∈ Py.range a b ↔ a ≤ i < b.
Proof. unfold Py.range. rewrite elem_of_seqZ. lia. Qed.

Lemma NoDup_range a b : NoDup (Py.range a b).
Proof. apply NoDup_seqZ. Qed.

Lemma length_range a b : length (Py.range a b) = Z.to_nat (b - a).
Proof. apply length_seqZ. Qed.

Lemma range_empty a b : b ≤ a → Py.range a b = [].
Proof.
  intros H. apply length_zero_iff_nil. rewrite length_range. lia.
Qed.

Lemma range_from_zero n : Py.range 0 n = Z.of_nat <$> seq 0 (Z.to_nat n).
Proof.
  unfold Py.range, seqZ. rewrite Z.sub_0_r.
  apply list_fmap_ext. intros _ i _. lia.
Qed.

(** *** Removing repeats *)

Lemma elem_of_keep_first l x : x ∈ keep_first l ↔ x ∈ l.
Proof.
  induction l as [|y l IH]; [done |]. cbn [keep_first].
  rewrite !elem_of_cons, list_elem_of_filter, IH.
  destruct (decide (x = y)); naive_solver.
Qed.

Lemma NoDup_keep_first l : NoDup (keep_first l).
Proof.
  induction l as [|y l IH]; [constructor |]. cbn [keep_first].
  constructor; [| by apply NoDup_filter].
  rewrite list_elem_of_filter. naive_solver.
Qed.

Lemma keep_first_sublist l : keep_first l `sublist_of` l.
Proof.
  induction l as [|y l IH]; [done |]. cbn [keep_first].
  constructor. etrans; [apply sublist_filter | done].
Qed.

Lemma filter_all (P : Z → Prop) `{!∀ x, Decision (P x)} l :
  Forall P l → filter P l = l.
Proof.
  induction 1 as [|x l Hx Hl IH]; [done |].
  by rewrite filter_cons, decide_True, IH.
Qed.

Lemma keep_first_NoDup l : NoDup l → keep_first l = l.
Proof.
  induction 1 as [|x l Hx Hl IH]; [done |]. cbn [keep_first].
  rewrite IH. f_equal. apply filter_all, Forall_forall.
  intros y Hy ->. done.
Qed.

Lemma keep_first_app l1 l2 :
  keep_first (l1 ++ l2) =
  keep_first l1 ++ filter (λ y, y ∉ l1) (keep_first l2).
Proof.
  induction l1 as [|x l1 IH]; cbn [keep_first app].
  - symmetry. apply filter_all, Forall_forall. intros y _.
    by intros ?%elem_of_nil.
  - rewrite IH, filter_app, list_filter_filter. do 2 f_equal.
    apply list_filter_iff. intros y. rewrite not_elem_of_cons. tauto.
Qed.

(** The loop with the [seen] set computes [keep_first]. *)
Lemma dedup_foldl idx seen out :
  foldl dedup_step (seen, out) idx =
  (list_to_set idx ∪ seen, out ++ filter (λ y, y ∉ seen) (keep_first idx)).
Proof.
  revert seen out. induction idx as [|x idx IH]; intros seen out.
  - cbn. rewrite app_nil_r. f_equal. set_solver.
  - cbn [foldl keep_first list_to_set]. unfold dedup_step at 2.
    rewrite filter_cons, list_filter_filter.
    destruct (decide (x ∈ seen)) as [Hx|Hx].
    + rewrite IH, decide_False by (by intros ?). f_equal; [set_solver |].
      f_equal. apply list_filter_iff. intros y. split; [| tauto].
      intros Hy. split; [done |]. by intros ->.
    + rewrite IH, decide_True, <- app_assoc by done.
      f_equal; [set_solver |]. cbn [app]. do 2 f_equal.
      apply list_filter_iff. intros y. set_solver.
Qed.

Lemma dedup_keep_first idx :
  (foldl dedup_step (∅, []) idx).2 = keep_first idx.
Proof.
  rewrite dedup_foldl. cbn. apply filter_all, Forall_forall.
  intros y _. set_solver.
Qed.

(** *** The indices of the intervals *)

Lemma foldl_extend total rs idx :
  foldl (λ idx r, idx ++ interval_indices total r) idx rs =
  idx ++ traversal total rs.
Proof.
  revert idx. induction rs as [|r rs IH]; intros idx.
  - cbn. by rewrite app_nil_r.
  - cbn [foldl]. unfold traversal in *.
    by rewrite IH, bind_cons, app_assoc.
Qed.

Lemma page_indices_nil total : page_indices [] total = Py.range 0 total.
Proof. done. Qed.

Lemma page_indices_cons rs total :
  rs ≠ [] → page_indices rs total = keep_first (traversal total rs).
Proof.
  destruct rs as [|r rs]; [done |]. intros _. unfold page_indices.
  by rewrite foldl_extend, dedup_keep_first.
Qed.

Lemma elem_of_interval_indices total s e i :
  i ∈ interval_indices total (s, e) ↔
  Z.max 1 (default 1 s) - 1 ≤ i < Z.min total (default total e).
Proof.
  unfold interval_indices.
  replace (match s with Some s0 => s0 | None => 1 end) with (default 1 s)
    by by destruct s.
  replace (match e with Some e0 => e0 | None => total end)
    with (default total e) by by destruct e.
  destruct (Z.leb_spec (Z.max 1 (default 1 s)) (Z.min total (default total e))).
  - rewrite elem_of_range. lia.
  - split; [by intros ?%elem_of_nil | lia].
Qed.

Lemma interval_indices_bounds total r i :
  i ∈ interval_indices total r → 0 ≤ i < total.
Proof. destruct r as [s e]. rewrite elem_of_interval_indices. lia. Qed.

Lemma interval_indices_empty total s e :
  default total e < default 1 s ∨ default total e < 1 ∨ total < default 1 s →
  interval_indices total (s, e) = [].
Proof.
  intros H. apply elem_of_nil_inv. intros i.
  rewrite elem_of_interval_indices. lia.
Qed.

Lemma elem_of_traversal total rs i :
  i ∈ traversal total rs ↔ ∃ r, r ∈ rs ∧ i ∈ interval_indices total r.
Proof.
  unfold traversal. rewrite list_elem_of_bind.
  split; intros (r & ? & ?); eauto.
Qed.

(** Every resolved index is a page of the document. *)
Lemma page_indices_bounds rs total i :
  i ∈ page_indices rs total → 0 ≤ i < total.
Proof.
  destruct (decide (rs = [])) as [->|Hne].
  - rewrite page_indices_nil, elem_of_range. lia.
  - rewrite page_indices_cons, elem_of_keep_first, elem_of_traversal by done.
    intros (r & _ & Hi). by eapply interval_indices_bounds.
Qed.

Lemma NoDup_page_indices rs total : NoDup (page_indices rs total).
Proof.
  destruct (decide (rs = [])) as [->|Hne].
  - apply NoDup_range.
  - rewrite page_indices_cons by done. apply NoDup_keep_first.
Qed.

Lemma length_page_indices_nil total :
  0 ≤ total → len (page_indices [] total) = total.
Proof.
  intros H. unfold len. rewrite page_indices_nil, length_range. lia.
Qed.

(** An interval that contributes nothing can be dropped. *)
Lemma traversal_drop total rs1 r rs2 :
  interval_indices total r = [] →
  traversal total (rs1 ++ r :: rs2) = traversal total (rs1 ++ rs2).
Proof.
  intros H. unfold traversal.
  by rewrite !bind_app, bind_cons, H.
Qed.

End Resolver.

(** * The merge driver *)

Section DriverFacts.

Context {page : Type}.
Implicit Types (W : world page) (a : args) (w writer : PdfWriter page)
         (rd : reader page) (s : io page) (p : string) (r : option string).

(** *** Adding pages *)

Lemma add_all_pages rd w :
  add_all rd w = Writer (w_pages w ++ pages rd) (w_outline w) (w_metadata w).
Proof.
  unfold add_all. revert w. induction (pages rd) as [|x l IH]; intros w.
  - cbn. rewrite app_nil_r. by destruct w.
  - cbn [foldl]. rewrite IH. cbn. by rewrite <- app_assoc.
Qed.

Lemma index_in_range (l : list page) i :
  0 ≤ i < len l → ∃ x, Py.index l i = inr x ∧ l !! Z.to_nat i = Some x.
Proof.
  unfold len. intros H. unfold Py.index.
  destruct (Z.ltb_spec i 0); [lia |].
  destruct (Z.leb_spec 0 i); [| lia].
  destruct (Z.ltb_spec i (Z.of_nat (length l))); [| lia]. cbn.
  destruct (l !! Z.to_nat i) as [x|] eqn:E; [eauto |].
  apply lookup_ge_None in E. lia.
Qed.

Lemma pages_at_cons (l : list page) i idx x :
  l !! Z.to_nat i = Some x → pages_at l (i :: idx) = x :: pages_at l idx.
Proof. intros H. unfold pages_at. cbn. by rewrite H. Qed.

(** Indices within the document never raise [IndexError]. *)
Lemma add_indexed_ok rd idx w :
  Forall (λ i, 0 ≤ i < len (pages rd)) idx →
  add_indexed rd idx w =
    inr (Writer (w_pages w ++ pages_at (pages rd) idx)
                (w_outline w) (w_metadata w))
  ∧ length (pages_at (pages rd) idx) = length idx.
Proof.
  intros Hall. revert w. induction Hall as [|i idx Hi Hall IH]; intros w.
  - cbn. rewrite app_nil_r. by destruct w.
  - destruct (index_in_range _ _ Hi) as (x & Hx & Hl).
    cbn [add_indexed]. rewrite Hx, (pages_at_cons _ _ _ _ Hl).
    destruct (IH (add_page x w)) as [-> Hlen]. cbn.
    by rewrite <- app_assoc, Hlen.
Qed.

Lemma pages_at_seq (k l : list page) :
  pages_at (k ++ l) (Z.of_nat <$> seq (length k) (length l)) = l.
Proof.
  revert k. induction l as [|x l IH]; intros k; [done |].
  cbn [length seq fmap list_fmap].
  rewrite (pages_at_cons _ _ _ x).
  - f_equal. specialize (IH (k ++ [x])).
    rewrite <- app_assoc, length_app, Nat.add_comm in IH. apply IH.
  - rewrite Nat2Z.id. by apply list_lookup_middle.
Qed.

Lemma pages_at_all (l : list page) : pages_at l (Py.range 0 (len l)) = l.
Proof.
  rewrite range_from_zero. unfold len. rewrite Nat2Z.id.
  apply (pages_at_seq [] l).
Qed.

(** *** One input *)

Local Arguments page_indices : simpl never.
Local Arguments parse_range : simpl never.
Local Arguments Py.basename : simpl never.
Local Arguments Py.str_of_int : simpl never.
Local Arguments String.append : simpl never.
Local Arguments Py.is_Exception : simpl never.
Local Arguments add_indexed : simpl never.
Local Arguments add_all : simpl never.
Local Arguments Z.sub : simpl never.
Local Arguments Z.of_nat : simpl never.

Ltac run :=
  unfold process_input, load, apply_metadata, bind, try_except, lift, log,
    print, eprint, sys_exit, raise, ret, write_file in *;
  simpl in *.

Lemma len_app {A} (l k : list A) : len (l ++ k) = len l + len k.
Proof. unfold len. rewrite length_app. lia. Qed.

Lemma selected_length rd rng :
  len (pages_at (pages rd) (page_indices rng (len (pages rd)))) =
  if bool_decide (rng = []) then len (pages rd)
  else len (page_indices rng (len (pages rd))).
Proof.
  case_bool_decide as Hr.
  - subst rng. by rewrite page_indices_nil, pages_at_all.
  - unfold len at 1 3. f_equal.
    apply (add_indexed_ok rd _ new_writer), Forall_forall.
    intros i. apply page_indices_bounds.
Qed.

(** An input that is read and whose range parses is appended whole:
    its selected pages, then its bookmark. *)
Lemma process_input_ok W a w p r s rd rng :
  path_exists W p = true → PdfReader W p = inr rd → accepted rd →
  range_of r = inr rng →
  ∃ out,
    process_input W a w p r s =
    (IO (stdout s ++ out) (stderr s) (events s ++ [EvExists p; EvRead p])
        (files s),
     inr (Writer
            (w_pages w ++
             pages_at (pages rd) (page_indices rng (len (pages rd))))
            (w_outline w ++
             (if bookmarks a then [(Py.basename p, len (w_pages w))]
              else []))
            (w_metadata w))).
Proof.
  intros Hex Hrd [Hacc Hpages] Hrng.
  assert (∀ s0, load W a p s0 =
            (IO (stdout s0) (stderr s0) (events s0 ++ [EvRead p]) (files s0),
             inr (Some rd))) as Hload.
  { intros s0. run. rewrite Hrd. simpl.
    destruct Hacc as [->| ->]; [done |]. by destruct (is_encrypted rd). }
  exists (if verbose a then
            [p +:+ ": " +:+
             Py.str_of_int (if bool_decide (rng = []) then len (pages rd)
                            else len (page_indices rng (len (pages rd))))
             +:+ " pages (range=" +:+
             (if opt_truthy r then default EmptyString r else "ALL")
             +:+ ")"]
          else []).
  unfold process_input, bind at 1, log. rewrite Hex. cbn [negb].
  unfold bind at 1. rewrite Hload. cbn [events stdout stderr files].
  rewrite Hpages. unfold bind at 1, ret at 1. cbv beta iota.
  unfold range_of in Hrng.
  assert ((if opt_truthy r then lift (parse_range (default EmptyString r))
           else ret []) =
          (ret rng : M page _)) as ->.
  { destruct (opt_truthy r); unfold lift, ret; [by rewrite Hrng |].
    by injection Hrng as <-. }
  assert ((if bool_decide (rng = []) then ret (add_all rd w)
           else lift (add_indexed rd (page_indices rng (len (pages rd))) w))
          = (ret (Writer
                (w_pages w ++
                 pages_at (pages rd) (page_indices rng (len (pages rd))))
                (w_outline w) (w_metadata w)) : M page _)) as Hadd.
  { case_bool_decide as Hr.
    - subst rng. by rewrite add_all_pages, page_indices_nil, pages_at_all.
    - unfold lift, ret.
      destruct (add_indexed_ok rd (page_indices rng (len (pages rd))) w)
        as [-> _]; [| done].
      apply Forall_forall. intros i. apply page_indices_bounds. }
  unfold bind at 1, ret at 1. cbv beta iota.
  rewrite Hadd, <- app_assoc. cbn [app].
  pose proof (selected_length rd rng) as Hlen. clear Hload Hadd.
  run. destruct (verbose a), (bookmarks a); simpl;
    rewrite ?app_nil_r, ?len_app, ?Hlen; unfold add_outline_item; simpl;
    repeat f_equal; lia.
Qed.

(** An encrypted input on which [decrypt("")] raises is passed over when
    encrypted inputs are excluded: the writer is left as it was. *)
Lemma process_input_skip W a w p r s rd :
  path_exists W p = true → PdfReader W p = inr rd → decrypt_raises rd →
  exclude_encrypted a = true →
  process_input W a w p r s =
  (IO (stdout s ++ (if quiet a then [] else ["Skipping encrypted: " +:+ p]))
      (stderr s) (events s ++ [EvExists p; EvRead p]) (files s),
   inr w).
Proof.
  intros Hex Hrd (Henc & e & He & Hexc) Hskip. run.
  rewrite Hex, Hrd. simpl. rewrite Henc, He, Hexc, Hskip.
  destruct (quiet a); simpl; rewrite <- ?app_assoc, ?app_nil_r; done.
Qed.

(** A document that cannot be opened undecrypted is passed over too, but
    its notice does not depend on [quiet] (lines 85-88). *)
Lemma process_input_undecrypted W a w p r s :
  path_exists W p = true → PdfReader W p = inl Py.FileNotDecryptedError →
  exclude_encrypted a = true →
  process_input W a w p r s =
  (IO (stdout s ++ ["Skipping encrypted: " +:+ p])
      (stderr s) (events s ++ [EvExists p; EvRead p]) (files s),
   inr w).
Proof.
  intros Hex Hrd Hskip. run. rewrite Hex, Hrd. simpl. rewrite Hskip.
  simpl. by rewrite <- app_assoc.
Qed.

Lemma skipped_decrypt_raises W a p rd :
  PdfReader W p = inr rd → decrypt_raises rd →
  skipped W a p = exclude_encrypted a.
Proof.
  intros Hrd (Henc & e & He & Hexc). unfold skipped.
  rewrite Hrd, Henc, He, Hexc. by destruct (exclude_encrypted a).
Qed.

Lemma skipped_accepted W a p rd :
  PdfReader W p = inr rd → accepted rd → skipped W a p = false.
Proof.
  intros Hrd [Hacc _]. unfold skipped. rewrite Hrd.
  destruct Hacc as [->| ->]; [by rewrite andb_false_r |].
  by rewrite !andb_false_r.
Qed.

(** An input the loop gets past was either passed over or read and
    appended. *)
Lemma process_input_inv W a w p r s s' w' :
  process_input W a w p r s = (s', inr w') →
  (skipped W a p = true ∧ w' = w ∧ files s' = files s)
  ∨ (∃ rd rng, path_exists W p = true ∧ PdfReader W p = inr rd ∧
               accepted rd ∧ range_of r = inr rng).
Proof.
  intros H.
  destruct (path_exists W p) eqn:Hex; [| by run; rewrite Hex in H].
  destruct (PdfReader W p) as [e|rd] eqn:Hrd.
  - left. unfold skipped. rewrite Hrd. run. rewrite Hex, Hrd in H.
    simpl in H. destruct e, (exclude_encrypted a); simpl in H; try done.
    by injection H as <- <-.
  - destruct (is_encrypted rd) eqn:Henc;
      [destruct (decrypt_empty rd) as [e|] eqn:He |].
    + left. unfold skipped. rewrite Hrd, Henc, He. run.
      rewrite Hex, Hrd in H. simpl in H. rewrite Henc, He in H.
      destruct (Py.is_Exception e) eqn:Hexc.
      * destruct (exclude_encrypted a); simpl in H; [| done].
        destruct (quiet a); simpl in H; by injection H as <- <-.
      * by destruct e.
    + right. destruct (pages_error rd) as [e|] eqn:Hpe.
      { exfalso. run. rewrite Hex, Hrd in H. simpl in H.
        rewrite Henc, He in H. simpl in H. by rewrite Hpe in H. }
      assert (accepted rd) as Hacc by (split; [by right | done]).
      destruct (range_of r) as [e|rng] eqn:Hrng; [| by eauto 10].
      exfalso. unfold range_of in Hrng. run.
      rewrite Hex, Hrd in H. simpl in H. rewrite Henc, He in H.
      simpl in H. rewrite Hpe in H. simpl in H.
      destruct (opt_truthy r); [| done]. by rewrite Hrng in H.
    + right. destruct (pages_error rd) as [e|] eqn:Hpe.
      { exfalso. run. rewrite Hex, Hrd in H. simpl in H.
        rewrite Henc in H. simpl in H. by rewrite Hpe in H. }
      assert (accepted rd) as Hacc by (split; [by left | done]).
      destruct (range_of r) as [e|rng] eqn:Hrng; [| by eauto 10].
      exfalso. unfold range_of in Hrng. run.
      rewrite Hex, Hrd in H. simpl in H. rewrite Henc in H.
      simpl in H. rewrite Hpe in H. simpl in H.
      destruct (opt_truthy r); [| done]. by rewrite Hrng in H.
Qed.

(** *** The record of a run only grows *)

Lemma io_app_assoc s d1 d2 :
  io_app (io_app s d1) d2 = io_app s (io_app d1 d2).
Proof.
  unfold io_app. simpl. rewrite <- !app_assoc.
  by rewrite (assoc_L (∪) (files d2)).
Qed.

Lemma io_app_io0_r s : io_app s io0 = s.
Proof.
  destruct s. unfold io_app. simpl.
  by rewrite !app_nil_r, (left_id_L ∅ (∪)).
Qed.

Lemma io_app_io0_l (d : io page) : io_app io0 d = d.
Proof.
  destruct d. unfold io_app. simpl. by rewrite (right_id_L ∅ (∪)).
Qed.

Lemma framed_ret {A} (x : A) : framed (ret x : M page A).
Proof. intros s. unfold ret. simpl. by rewrite io_app_io0_r. Qed.

Lemma framed_lift {A} (x : Py.exn + A) : framed (lift x : M page A).
Proof. intros s. unfold lift. simpl. by rewrite io_app_io0_r. Qed.

Lemma framed_raise {A} e : framed (raise e : M page A).
Proof. apply framed_lift. Qed.

Lemma framed_print line : framed (print line : M page unit).
Proof.
  intros s. unfold print, io_app. simpl.
  by rewrite !app_nil_r, (left_id_L ∅ (∪)).
Qed.

Lemma framed_eprint line : framed (eprint line : M page unit).
Proof.
  intros s. unfold eprint, io_app. simpl.
  by rewrite !app_nil_r, (left_id_L ∅ (∪)).
Qed.

Lemma framed_log ev : framed (log ev : M page unit).
Proof.
  intros s. unfold log, io_app. simpl.
  by rewrite !app_nil_r, (left_id_L ∅ (∪)).
Qed.

Lemma framed_write_file path w : framed (write_file path w).
Proof.
  intros s. unfold write_file, io_app. simpl.
  rewrite !app_nil_r. do 2 f_equal.
  by rewrite <- insert_union_l, (left_id_L ∅ (∪)).
Qed.

Lemma framed_bind {A B} (m : M page A) (k : A → M page B) :
  framed m → (∀ x, framed (k x)) → framed (x <- m ;; k x).
Proof.
  intros Hm Hk s. unfold bind. rewrite (Hm s).
  destruct (m io0) as [d [e|x]]; simpl; [done |].
  by rewrite (Hk x (io_app s d)), (Hk x d), io_app_assoc.
Qed.

Lemma framed_try_except {A} (m : M page A) h :
  framed m → (∀ e k, h e = Some k → framed k) → framed (try_except m h).
Proof.
  intros Hm Hh s. unfold try_except. rewrite (Hm s).
  destruct (m io0) as [d [e|x]]; simpl; [| done].
  destruct (h e) as [k|] eqn:E; [| done].
  by rewrite (Hh e k E (io_app s d)), (Hh e k E d), io_app_assoc.
Qed.

Ltac framed_step :=
  first
    [ apply framed_ret | apply framed_lift | apply framed_raise
    | apply framed_print | apply framed_eprint | apply framed_log
    | apply framed_write_file
    | apply framed_bind; [| intros ?]
    | match goal with
      | |- framed (if ?b then _ else _) => destruct b
      | |- framed (match ?x with _ => _ end) => destruct x
      end ].

Lemma framed_load W a p : framed (load W a p).
Proof.
  unfold load. apply framed_try_except.
  - unfold sys_exit. repeat framed_step.
  - intros e k Hk. destruct e; try done.
    injection Hk as <-. unfold sys_exit. repeat framed_step.
Qed.

Lemma framed_process_input W a w p r : framed (process_input W a w p r).
Proof.
  unfold process_input, sys_exit.
  apply framed_bind; [apply framed_log | intros _].
  destruct (negb (path_exists W p)); [repeat framed_step |].
  apply framed_bind; [apply framed_load | intros [rd|]];
    repeat framed_step.
Qed.

Lemma framed_process_inputs W a l w : framed (process_inputs W a l w).
Proof.
  revert w. induction l as [|[p r] l IH]; intros w; cbn [process_inputs].
  - apply framed_ret.
  - apply framed_bind; [apply framed_process_input | done].
Qed.

Lemma framed_apply_metadata W a w : framed (apply_metadata W a w).
Proof. unfold apply_metadata. repeat framed_step. Qed.

(** What is left of a framed computation depends on the files only. *)
Lemma outcome_framed {A} (m : M page A) s1 s2 :
  framed m → files s1 = files s2 → outcome (m s1) = outcome (m s2).
Proof.
  intros Hm Hf. rewrite (Hm s1), (Hm s2). unfold outcome. simpl.
  by rewrite Hf.
Qed.

Lemma outcome_bind {A B} (m1 m2 : M page A) (k : A → M page B) s1 s2 :
  (∀ x, framed (k x)) → outcome (m1 s1) = outcome (m2 s2) →
  outcome ((x <- m1 ;; k x) s1) = outcome ((x <- m2 ;; k x) s2).
Proof.
  intros Hk. unfold bind, outcome at 1 2.
  destruct (m1 s1) as [t1 [e1|x1]], (m2 s2) as [t2 [e2|x2]]; simpl;
    intros [= Hf Hr]; subst.
  - unfold outcome. simpl. by rewrite Hf.
  - by apply outcome_framed.
Qed.

Lemma outcome_bind_ext {A B} (m : M page A) (k1 k2 : A → M page B) s :
  (∀ x t, outcome (k1 x t) = outcome (k2 x t)) →
  outcome ((x <- m ;; k1 x) s) = outcome ((x <- m ;; k2 x) s).
Proof.
  intros Hk. unfold bind. destruct (m s) as [t [e|x]]; [done | apply Hk].
Qed.

(** *** The loop *)

Lemma process_inputs_app W a l1 l2 w s :
  process_inputs W a (l1 ++ l2) w s =
  (w' <- process_inputs W a l1 w ;; process_inputs W a l2 w') s.
Proof.
  revert w s. induction l1 as [|[p r] l1 IH]; intros w s; [done |].
  cbn [app process_inputs]. unfold bind.
  destruct (process_input W a w p r s) as [t [e|w1]]; [done |].
  rewrite IH. done.
Qed.

Lemma process_inputs_with_inputs W a ins rs l w s :
  process_inputs W (with_inputs a ins rs) l w s = process_inputs W a l w s.
Proof.
  revert w s. induction l as [|[p r] l IH]; intros w s; [done |].
  cbn [process_inputs]. unfold bind.
  change (process_input W (with_inputs a ins rs) w p r s)
    with (process_input W a w p r s).
  destruct (process_input W a w p r s) as [t [e|w1]]; [done | apply IH].
Qed.

(** Passing over an input leaves the rest of the loop as it would be
    without that input. *)
Lemma process_inputs_skip W a pre post w p r s rd :
  path_exists W p = true → PdfReader W p = inr rd → decrypt_raises rd →
  exclude_encrypted a = true →
  outcome (process_inputs W a (pre ++ (p, r) :: post) w s) =
  outcome (process_inputs W a (pre ++ post) w s).
Proof.
  intros Hex Hrd Hfail Hskip. rewrite !process_inputs_app.
  apply outcome_bind_ext. intros w1 t. cbn [process_inputs].
  unfold bind. rewrite (process_input_skip W a w1 p r t rd) by done.
  by apply outcome_framed; [apply framed_process_inputs |].
Qed.

Lemma selected_count_ok W a p r rd rng :
  PdfReader W p = inr rd → accepted rd → range_of r = inr rng →
  selected_count W a (p, r) =
  len (pages_at (pages rd) (page_indices rng (len (pages rd)))).
Proof.
  intros Hrd Hacc Hrng. unfold selected_count. cbn [fst snd].
  rewrite (skipped_accepted W a p rd), Hrd by done.
  rewrite selected_length. unfold range_of in Hrng.
  destruct (opt_truthy r).
  - rewrite Hrng. case_bool_decide as Hnil; [| done]. subst rng.
    apply length_page_indices_nil. unfold len. lia.
  - injection Hrng as <-. by rewrite bool_decide_eq_true_2.
Qed.

(** The page count after the loop. *)
Lemma process_inputs_count W a l w s s' w' :
  process_inputs W a l w s = (s', inr w') →
  len (w_pages w') = len (w_pages w) + sum_list (selected_count W a <$> l)
  ∧ files s' = files s.
Proof.
  revert w s. induction l as [|[p r] l IH]; intros w s.
  - intros [= <- <-]. cbn. split; [lia | done].
  - cbn [process_inputs]. unfold bind.
    destruct (process_input W a w p r s) as [t [e|w1]] eqn:E; [done |].
    intros [Hn Hf]%IH. rewrite fmap_cons. cbn [sum_list].
    destruct (process_input_inv _ _ _ _ _ _ _ _ E)
      as [(Hs & -> & Hft)|(rd & rng & Hex & Hrd & Hacc & Hrng)].
    + unfold selected_count at 1. cbn [fst]. rewrite Hs.
      split; [lia | congruence].
    + destruct (process_input_ok W a w p r s rd rng Hex Hrd Hacc Hrng)
        as [out Hok].
      rewrite Hok in E. injection E as <- <-.
      rewrite (selected_count_ok W a p r rd rng) by done.
      cbn [w_pages files] in *. rewrite len_app in Hn.
      split; [lia | done].
Qed.

(** *** The whole run *)

Lemma main_unfold W a s :
  bad_range_count a = false →
  main W a s =
  (w <- process_inputs W a (zip (inputs a) (normalize_ranges a)) new_writer ;;
   finish W a w) s.
Proof. intros H. unfold main. by rewrite H. Qed.

Lemma main_refused W a s :
  bad_range_count a = true →
  main W a s =
  (IO (stdout s)
      (stderr s ++ ["If using --range, supply one per input or a single range applied to all."])
      (events s) (files s),
   inl (Py.SystemExit 2)).
Proof. intros H. unfold main. by rewrite H. Qed.

Lemma framed_finish W a w : framed (finish W a w).
Proof.
  unfold finish. apply framed_bind; [apply framed_apply_metadata |].
  intros w'. repeat framed_step.
Qed.

Lemma apply_metadata_inv W a w s s1 w1 :
  apply_metadata W a w s = (s1, inr w1) →
  w_pages w1 = w_pages w ∧ w_outline w1 = w_outline w ∧ s1 = s.
Proof.
  unfold apply_metadata. destruct (opt_truthy (metadata a)).
  - unfold bind, lift.
    destruct (json_loads W (default EmptyString (metadata a))); [done |].
    destruct (collect_info _ _ _); [done |].
    case_bool_decide; by intros [= <- <-].
  - by intros [= <- <-].
Qed.

Lemma finish_inv W a w s s' :
  finish W a w s = (s', inr tt) →
  ∃ wf, files s' = <[output a := wf]> (files s) ∧
        w_pages wf = w_pages w ∧ w_outline wf = w_outline w.
Proof.
  unfold finish, bind at 1.
  destruct (apply_metadata W a w s) as [s1 [e|w1]] eqn:E; [done |].
  apply apply_metadata_inv in E as (Hp & Ho & ->).
  intros H. exists w1. split; [| done].
  unfold bind, write_file, print, ret in H.
  destruct (negb (quiet a)); by injection H as <-.
Qed.

Lemma main_inv W a s s' :
  main W a s = (s', inr tt) →
  bad_range_count a = false ∧
  ∃ s1 w1 wf,
    process_inputs W a (zip (inputs a) (normalize_ranges a)) new_writer s
      = (s1, inr w1) ∧
    files s' = <[output a := wf]> (files s1) ∧
    w_pages wf = w_pages w1 ∧ w_outline wf = w_outline w1.
Proof.
  destruct (bad_range_count a) eqn:Hb; [by rewrite main_refused |].
  rewrite main_unfold by done. unfold bind at 1.
  destruct (process_inputs _ _ _ _ s) as [s1 [e|w1]] eqn:E; [done |].
  intros (wf & ? & ? & ?)%finish_inv. split; [done |].
  by exists s1, w1, wf.
Qed.

(** *** The name of a bookmark *)

Lemma basename_cons c p :
  Py.basename (String c p) =
  if Py.contains "/" (String c p) then Py.basename p else String c p.
Proof. done. Qed.

Lemma basename_nosep p : "/"%char ∉ chars (Py.basename p).
Proof.
  induction p as [|c p IH]; [by intros ?%elem_of_nil |].
  rewrite basename_cons. destruct (Py.contains "/" (String c p)) eqn:E; [done |].
  by apply contains_false.
Qed.

Lemma basename_suffix p :
  ∃ dir, p = dir +:+ Py.basename p ∧
         (dir = EmptyString ∨ ∃ d, dir = d +:+ "/").
Proof.
  induction p as [|c p (dir & Hp & Hdir)].
  - exists EmptyString. split; [done | by left].
  - rewrite basename_cons. destruct (Py.contains "/" (String c p)) eqn:E.
    + exists (String c dir). rewrite str_app_cons, <- Hp. split; [done |].
      right. destruct Hdir as [->|[d ->]].
      * exists EmptyString. rewrite str_app_nil_l in Hp.
        cbn [Py.contains] in E. apply orb_true_iff in E as [E|E].
        -- by apply eqb_true in E as ->.
        -- apply contains_chars in E. rewrite Hp in E.
           by apply basename_nosep in E.
      * by exists (String c d).
    + exists EmptyString. split; [done | by left].
Qed.

End DriverFacts.

(** * The properties of the specification *)

Section RangeClaims.

(** C1 (as stated, refuted).  The specification describes the indices
    resolved from ["1,3,8-12,-5,7-"] on 20 pages as the union of {0,2}
    and {6..19}; index 1 is resolved and is not in that union. *)
Lemma C1_union_counterexample :
  ∃ ivs, parse_range "1,3,8-12,-5,7-" = inr ivs ∧
         ¬ (∀ i, i ∈ page_indices ivs 20 ↔ (i = 0 ∨ i = 2 ∨ 6 ≤ i ≤ 19)).
Proof.
  eexists. split; [vm_compute; reflexivity |].
  intros H. destruct (H 1) as [H1 _].
  assert (1 = 0 ∨ 1 = 2 ∨ 6 ≤ 1 ≤ 19) as Hbad; [| lia].
  apply H1. apply (list_elem_of_lookup_2 _ 7). vm_compute. reflexivity.
Qed.

(** C1 (amended).  ["1,3,8-12,-5,7-"] parses to exactly
    [(1,1),(3,3),(8,12),(None,5),(7,None)]; on 20 pages these resolve to
    exactly [0,2,7,8,9,10,11,1,3,4,6,12,...,19]: the traversal
    0,2,7..11,0..4,6..19 with every repeat after the first removed, each
    index once, and as a set every index from 0 to 19 but 5. *)
Theorem C1_sample_range :
  let ivs := [(Some 1, Some 1); (Some 3, Some 3); (Some 8, Some 12);
              (None, Some 5); (Some 7, None)] in
  parse_range "1,3,8-12,-5,7-" = inr ivs
  ∧ page_indices ivs 20 =
    [0; 2; 7; 8; 9; 10; 11; 1; 3; 4; 6; 12; 13; 14; 15; 16; 17; 18; 19]
  ∧ page_indices ivs 20 =
    keep_first ([0; 2; 7; 8; 9; 10; 11; 0; 1; 2; 3; 4] ++ Py.range 6 20)
  ∧ NoDup (page_indices ivs 20)
  ∧ ∀ i, i ∈ page_indices ivs 20 ↔ (0 ≤ i ≤ 4 ∨ 6 ≤ i ≤ 19).
Proof.
  intros ivs.
  assert (page_indices ivs 20 =
          [0; 2; 7; 8; 9; 10; 11; 1; 3; 4; 6; 12; 13; 14; 15; 16; 17; 18; 19])
    as Hres by (vm_compute; reflexivity).
  split; [vm_compute; reflexivity |]. split; [done |].
  split; [vm_compute; reflexivity |].
  split; [apply NoDup_page_indices |].
  intros i. rewrite Hres, !elem_of_cons, elem_of_nil. lia.
Qed.

(** C6.  The empty string parses to the empty interval list, and the
    empty interval list resolves, for every page count N ≥ 0, to the
    whole document [0, 1, ..., N-1]. *)
Theorem C6_empty_spec_all_pages (N : Z) :
  0 ≤ N →
  parse_range "" = inr []
  ∧ (∀ ivs, parse_range "" = inr ivs → page_indices ivs N = page_indices [] N)
  ∧ page_indices [] N = Z.of_nat <$> seq 0 (Z.to_nat N)
  ∧ len (page_indices [] N) = N
  ∧ ∀ i, 0 ≤ i < N → page_indices [] N !! Z.to_nat i = Some i.
Proof.
  intros HN. split; [done |].
  split; [by intros ivs [= <-] |].
  split; [apply range_from_zero |].
  split; [by apply length_page_indices_nil |].
  intros i Hi. rewrite page_indices_nil. unfold Py.range.
  rewrite <- (Z2Nat.id i) at 2 by lia. rewrite lookup_seqZ. split; lia.
Qed.

Lemma C6_witness :
  0 ≤ 4 ∧ page_indices [] 4 = Z.of_nat <$> seq 0 (Z.to_nat 4)
  ∧ len (page_indices [] 4) = 4.
Proof.
  split; [lia |].
  pose proof (C6_empty_spec_all_pages 4 ltac:(lia)) as (_ & _ & H1 & H2 & _).
  exact (conj H1 H2).
Defined.

Lemma page_indices_single total r :
  page_indices [r] total = interval_indices total r.
Proof.
  rewrite page_indices_cons by done. unfold traversal.
  rewrite bind_singleton. apply keep_first_NoDup.
  destruct r as [s e]. unfold interval_indices.
  case_match; [apply NoDup_range | constructor].
Qed.

(** C7.  Resolution is defined on every interval list and page count
    and returns pages of the document only; an interval whose start
    exceeds its end after substitution, such as (12, 8), contributes
    nothing; an interval beyond the document, such as (100, 200) on 10
    pages, contributes nothing; the open interval (None, None)
    contributes all [total] indices. *)
Theorem C7_resolution_never_errors (rs : list interval) (total : Z) :
  (∃ out, page_indices rs total = out ∧ NoDup out ∧
          ∀ i, i ∈ out → 0 ≤ i < total)
  ∧ (∀ s e, default total e < default 1 s →
            interval_indices total (s, e) = []
            ∧ page_indices [(s, e)] total = []
            ∧ ∀ rs1 rs2, rs1 ++ rs2 ≠ [] →
                page_indices (rs1 ++ (s, e) :: rs2) total =
                page_indices (rs1 ++ rs2) total)
  ∧ interval_indices total (Some 12, Some 8) = []
  ∧ (∀ s e, total < default 1 s ∨ default total e < 1 →
            interval_indices total (s, e) = []
            ∧ page_indices [(s, e)] total = [])
  ∧ interval_indices 10 (Some 100, Some 200) = []
  ∧ page_indices [(Some 100, Some 200)] 10 = []
  ∧ interval_indices total (None, None) = Py.range 0 total
  ∧ page_indices [(None, None)] total = Py.range 0 total
  ∧ (0 ≤ total →
     len (page_indices [(None, None)] total) = total
     ∧ ∀ i, 0 ≤ i < total → i ∈ page_indices [(None, None)] total).
Proof.
  assert (interval_indices total (None, None) = Py.range 0 total) as Hopen.
  { unfold interval_indices. rewrite Z.min_id. change (1 `max` 1) with 1.
    case_match eqn:E; [done |].
    symmetry. apply range_empty. lia. }
  split.
  { eexists. split; [done |]. split; [apply NoDup_page_indices |].
    intros i. apply page_indices_bounds. }
  split.
  { intros s e Hrev.
    assert (interval_indices total (s, e) = []) as Hnil
      by (apply interval_indices_empty; lia).
    split; [done |]. split; [by rewrite page_indices_single |].
    intros rs1 rs2 Hne. rewrite !page_indices_cons.
    - by rewrite traversal_drop.
    - done.
    - by destruct rs1. }
  split; [apply interval_indices_empty; cbn; lia |].
  split.
  { intros s e Hout.
    assert (interval_indices total (s, e) = []) as Hnil
      by (apply interval_indices_empty; lia).
    by rewrite page_indices_single. }
  split; [done |]. split; [done |]. split; [done |].
  split; [by rewrite page_indices_single |].
  intros Htotal. rewrite page_indices_single, Hopen. split.
  - unfold len. rewrite length_range. lia.
  - intros i Hi. apply elem_of_range. lia.
Qed.

Lemma int_plain_digits_token t n :
  "-"%char ∉ chars t → t ≠ EmptyString → Py.int t = inr n →
  parse_token ("-" +:+ t) = inr (None, Some n).
Proof.
  intros Hd Hne Hn. apply parse_token_inr.
  apply (ti_dash _ EmptyString t); [done | by intros ?%elem_of_nil | |].
  - by left.
  - right. eauto.
Qed.

(** C10 (as stated, refuted).  A token written as a negative number is
    accepted, yet it selects pages: ["-3"] on 5 pages resolves to the
    first three pages. *)
Lemma C10_negative_counterexample :
  ∃ ivs, parse_range "-3" = inr ivs ∧ page_indices ivs 5 = [0; 1; 2]
         ∧ page_indices ivs 5 ≠ [].
Proof. eexists. split; [vm_compute; reflexivity |]. by vm_compute. Qed.

(** C10 (amended).  [parse_range("0")] returns [(0, 0)] without error
    and [page_indices([(0, 0)], total)] is empty for every [total], as
    is the resolution of any interval whose end is not positive, so a
    zero page token silently selects no pages; a token written as a
    negative number ["-N"] is the open interval (None, N), which
    selects the pages 1 to min(N, total). *)
Theorem C10_zero_token_selects_nothing :
  parse_range "0" = inr [(Some 0, Some 0)]
  ∧ (∀ total, page_indices [(Some 0, Some 0)] total = [])
  ∧ (∀ total s e, e ≤ 0 → page_indices [(s, Some e)] total = [])
  ∧ parse_range "-3" = inr [(None, Some 3)]
  ∧ (∀ t n, "-"%char ∉ chars t → t ≠ EmptyString → Py.int t = inr n →
            parse_token ("-" +:+ t) = inr (None, Some n))
  ∧ (∀ total n, page_indices [(None, Some n)] total =
                Py.range 0 (Z.min total n)).
Proof.
  split; [vm_compute; reflexivity |].
  split.
  { intros total. rewrite page_indices_single.
    apply interval_indices_empty. cbn. lia. }
  split.
  { intros total s e He. rewrite page_indices_single.
    apply interval_indices_empty. cbn. lia. }
  split; [vm_compute; reflexivity |].
  split; [apply int_plain_digits_token |].
  intros total n. rewrite page_indices_single. unfold interval_indices.
  change (1 `max` 1) with 1.
  case_match eqn:E; [done |]. symmetry. apply range_empty. lia.
Qed.

(** C8.  [parse_range] raises (a [ValueError]) exactly when some
    comma-separated token, once trimmed and split at its first dash,
    has a non-empty substring that is not an integer literal; on every
    other string it returns the intervals the string spells: (N, N) for
    a token N, [None] for an empty side of a dash, nothing for an empty
    token. *)
Theorem C8_parse_range_errors (spec : string) :
  ((∃ e, parse_range spec = inl e) ↔ bad_range_spec spec)
  ∧ (∀ e, parse_range spec = inl e → e = Py.ValueError)
  ∧ (¬ bad_range_spec spec →
     ∃ ivs, parse_range spec = inr ivs ∧ intervals_of spec ivs)
  ∧ (∀ ivs, parse_range spec = inr ivs → intervals_of spec ivs).
Proof.
  assert (∀ ivs, parse_range spec = inr ivs → intervals_of spec ivs) as Hok.
  { intros ivs Hivs. unfold parse_range in Hivs.
    destruct (parse_tokens_spec (Py.split "," spec) [])
      as [[He _]|(ivs' & He & Hall)]; [congruence |].
    rewrite He in Hivs. injection Hivs as <-. cbn [app].
    exists (Py.split "," spec), (Py.strip <$> Py.split "," spec).
    split; [apply split_is_split |]. split.
    - apply Forall2_fmap_r, Forall_Forall2_diag, Forall_forall.
      intros tok _. apply strip_is_trim.
    - eapply Forall2_impl; [done |]. intros t iv. apply parse_token_inr. }
  split; [| split; [| split; [| done]]].
  - split.
    + intros [e He]. by apply parse_range_inl in He as [_ ?].
    + intros H. exists Py.ValueError. by apply bad_range_spec_raises.
  - intros e He. by apply parse_range_inl in He as [? _].
  - intros Hgood. destruct (parse_range spec) as [e|ivs] eqn:E.
    + by apply parse_range_inl in E as [_ ?].
    + exists ivs. split; [done | by apply Hok].
Qed.

End RangeClaims.

Section DriverClaims.

Context {page : Type}.
Implicit Types (W : world page) (a : args) (w : PdfWriter page)
         (rd : reader page) (s : io page) (p : string) (r : option string).

(** C2.  An input whose range parses to at least one interval but
    resolves to no index of its document adds no page; with bookmarks
    enabled its bookmark is still recorded, at the page count of the
    output so far, where no page has been put. *)
Theorem C2_empty_resolution_bookmark W a w p spec s rd rng :
  path_exists W p = true → PdfReader W p = inr rd → accepted rd →
  spec ≠ EmptyString → parse_range spec = inr rng → rng ≠ [] →
  page_indices rng (len (pages rd)) = [] →
  ∃ s' w',
    process_input W a w p (Some spec) s = (s', inr w')
    ∧ w_pages w' = w_pages w
    ∧ w_outline w' =
      w_outline w ++
      (if bookmarks a then [(Py.basename p, len (w_pages w'))] else []).
Proof.
  intros Hex Hrd Hacc Hne Hparse _ Hnone.
  assert (range_of (Some spec) = inr rng) as Hrng.
  { unfold range_of. cbn. by rewrite (proj2 (truthy_true spec)). }
  destruct (process_input_ok W a w p (Some spec) s rd rng Hex Hrd Hacc Hrng)
    as [out Hok].
  rewrite Hnone in Hok. unfold pages_at in Hok. cbn [omap list_omap] in Hok.
  rewrite app_nil_r in Hok. eexists _, _. split; [exact Hok |]. done.
Qed.

(** C3.  With bookmarks enabled, every input that is read and appended
    gets one bookmark: its label is the base name of the path (what
    follows the last slash) and its page number is the page count of
    the output before the pages of this input were added.  Input A of 5
    pages without range, then input B of 3 pages with a range selecting
    2 of them, give bookmarks at 0 and at 5. *)
Theorem C3_bookmark_offsets W a :
  bookmarks a = true →
  (∀ w p r s rd rng,
     path_exists W p = true → PdfReader W p = inr rd → accepted rd →
     range_of r = inr rng →
     ∃ s' w' sel,
       process_input W a w p r s = (s', inr w')
       ∧ w_pages w' = w_pages w ++ sel
       ∧ w_outline w' = w_outline w ++ [(Py.basename p, len (w_pages w))])
  ∧ (∀ p, ("/"%char ∉ chars (Py.basename p))
          ∧ ∃ dir, p = (dir +:+ Py.basename p)
                   ∧ (dir = EmptyString ∨ ∃ d, dir = (d +:+ "/")))
  ∧ (∀ pA pB rdA rdB rB rngB s,
       path_exists W pA = true → PdfReader W pA = inr rdA → accepted rdA →
       path_exists W pB = true → PdfReader W pB = inr rdB → accepted rdB →
       len (pages rdA) = 5 → len (pages rdB) = 3 →
       range_of (Some rB) = inr rngB → len (page_indices rngB 3) = 2 →
       ∃ s' w',
         process_inputs W a [(pA, None); (pB, Some rB)] new_writer s
           = (s', inr w')
         ∧ w_outline w' = [(Py.basename pA, 0); (Py.basename pB, 5)]
         ∧ len (w_pages w') = 7).
Proof.
  intros Hb.
  assert (∀ w p r s rd rng,
     path_exists W p = true → PdfReader W p = inr rd → accepted rd →
     range_of r = inr rng →
     ∃ s' w' sel,
       process_input W a w p r s = (s', inr w')
       ∧ w_pages w' = w_pages w ++ sel
       ∧ len sel = selected_count W a (p, r)
       ∧ w_outline w' = w_outline w ++ [(Py.basename p, len (w_pages w))])
    as Hstep.
  { intros w p r s rd rng Hex Hrd Hacc Hrng.
    destruct (process_input_ok W a w p r s rd rng Hex Hrd Hacc Hrng)
      as [out Hok].
    rewrite Hb in Hok. eexists _, _, _. split; [exact Hok |].
    split; [done |]. split; [| done]. symmetry.
    by apply selected_count_ok. }
  split; [| split].
  - intros w p r s rd rng Hex Hrd Hacc Hrng.
    destruct (Hstep w p r s rd rng) as (s' & w' & sel & ? & ? & _ & ?);
      [done .. |]. by exists s', w', sel.
  - intros p. split; [apply basename_nosep | apply basename_suffix].
  - intros pA pB rdA rdB rB rngB s HexA HrdA HaccA HexB HrdB HaccB HnA HnB
           HrB HselB.
    destruct (Hstep new_writer pA None s rdA [])
      as (s1 & w1 & selA & H1 & HpA & HlA & HoA); [done .. |].
    destruct (Hstep w1 pB (Some rB) s1 rdB rngB)
      as (s2 & w2 & selB & H2 & HpB & HlB & HoB); [done .. |].
    exists s2, w2. cbn [process_inputs]. unfold bind. rewrite H1, H2.
    split; [done |].
    assert (len selA = 5) as HA.
    { rewrite HlA. unfold selected_count. cbn [fst snd opt_truthy].
      by rewrite (skipped_accepted W a pA rdA), HrdA. }
    assert (len selB = 2) as HB.
    { rewrite HlB, (selected_count_ok W a pB (Some rB) rdB rngB) by done.
      rewrite selected_length, HnB, HselB. case_bool_decide as Hn; [| done].
      subst rngB. rewrite page_indices_nil in HselB. unfold len in HselB.
      rewrite length_range in HselB. lia. }
    rewrite HoB, HoA, HpB, HpA, !len_app, HA, HB. done.
Qed.


(** C9.  Every input the loop gets past adds to the output as many
    pages as are selected from it: none when it is passed over, the
    number of resolved indices when a range was supplied, all its pages
    otherwise; the output of a run that ends well has as many pages as
    are selected from all its inputs together. *)
Theorem C9_output_page_count W a :
  (∀ w p r s s' w',
     process_input W a w p r s = (s', inr w') →
     len (w_pages w') = len (w_pages w) + selected_count W a (p, r))
  ∧ (∀ p r rd rng,
       PdfReader W p = inr rd → accepted rd → range_of r = inr rng →
       selected_count W a (p, r) =
       if opt_truthy r then len (page_indices rng (len (pages rd)))
       else len (pages rd))
  ∧ (∀ p r, skipped W a p = true → selected_count W a (p, r) = 0)
  ∧ (∀ l w s s' w',
       process_inputs W a l w s = (s', inr w') →
       len (w_pages w') =
       len (w_pages w) + sum_list (selected_count W a <$> l))
  ∧ (∀ s s',
       main W a s = (s', inr tt) →
       ∃ wf, files s' !! output a = Some wf
             ∧ len (w_pages wf) =
               sum_list (selected_count W a <$>
                         zip (inputs a) (normalize_ranges a))).
Proof.
  split; [| split; [| split; [| split]]].
  - intros w p r s s' w' H.
    destruct (process_inputs_count W a [(p, r)] w s s' w') as [Hn _].
    { cbn [process_inputs]. unfold bind. by rewrite H. }
    rewrite Hn. cbn. lia.
  - intros p r rd rng Hrd Hacc Hrng. unfold selected_count. cbn [fst snd].
    rewrite (skipped_accepted W a p rd), Hrd by done.
    unfold range_of in Hrng. destruct (opt_truthy r); [| done].
    by rewrite Hrng.
  - intros p r Hs. unfold selected_count. cbn [fst]. by rewrite Hs.
  - intros l w s s' w' H. by apply process_inputs_count in H as [? _].
  - intros s s' (_ & s1 & w1 & wf & Hloop & Hf & Hp & _)%main_inv.
    exists wf. split; [by rewrite Hf, lookup_insert_eq |].
    apply process_inputs_count in Hloop as [Hn _].
    rewrite Hp, Hn. done.
Qed.

End DriverClaims.

(** * The sample world *)

Section Samples.

(** ["100-200"] on the document of five pages: no page, one bookmark. *)
Lemma C2_witness :
  ∃ s' w',
    process_input sample_world (sample_args ["A.pdf"] (Some ["100-200"]))
                  new_writer "A.pdf" (Some "100-200") io0 = (s', inr w')
    ∧ w_pages w' = []
    ∧ w_outline w' = [("A.pdf"%string, len (w_pages w'))].
Proof.
  apply (C2_empty_resolution_bookmark sample_world
           (sample_args ["A.pdf"] (Some ["100-200"])) new_writer
           "A.pdf" "100-200" io0 A5 [(Some 100, Some 200)]).
  - reflexivity.
  - reflexivity.
  - split; [left |]; reflexivity.
  - discriminate.
  - vm_compute. reflexivity.
  - discriminate.
  - vm_compute. reflexivity.
Defined.

(** The document of five pages, then pages 2 and 3 of the document of
    three pages: bookmarks at 0 and 5. *)
Lemma C3_witness :
  ∃ s' w',
    process_inputs sample_world
      (sample_args ["A.pdf"; "docs/B.pdf"] (Some [""; "2-3"]))
      [("A.pdf"%string, None); ("docs/B.pdf"%string, Some "2-3"%string)]
      new_writer io0 = (s', inr w')
    ∧ w_outline w' = [("A.pdf"%string, 0); ("B.pdf"%string, 5)]
    ∧ len (w_pages w') = 7.
Proof.
  destruct (C3_bookmark_offsets sample_world
              (sample_args ["A.pdf"; "docs/B.pdf"] (Some [""; "2-3"]))
              eq_refl) as (_ & _ & H).
  apply (H "A.pdf"%string "docs/B.pdf"%string A5 B3 "2-3"%string
           [(Some 2, Some 3)] io0).
  - reflexivity.
  - reflexivity.
  - split; [left |]; reflexivity.
  - reflexivity.
  - reflexivity.
  - split; [left |]; reflexivity.
  - reflexivity.
  - reflexivity.
  - vm_compute. reflexivity.
  - vm_compute. reflexivity.
Defined.

(** A whole run: three inputs, the second one locked, one range each. *)
Example sample_run :
  let a := Args ["A.pdf"; "locked.pdf"; "docs/B.pdf"] "out.pdf"
                (Some [""; "1"; "2-,1"]) true None true false true in
  let res := main sample_world a io0 in
  stdout res.1 =
    ["A.pdf: 5 pages (range=ALL)"; "Skipping encrypted: locked.pdf";
     "docs/B.pdf: 3 pages (range=2-,1)"; "Wrote out.pdf"]%string
  ∧ stderr res.1 = []
  ∧ files res.1 !! "out.pdf"%string =
    Some (Writer [1; 2; 3; 4; 5; 12; 13; 11]%nat
                 [("A.pdf"%string, 0); ("B.pdf"%string, 5)] ∅)
  ∧ res.2 = inr tt.
Proof. vm_compute. done. Qed.

(** Three inputs and two ranges: refused before anything is read. *)
Example sample_refused :
  main sample_world
       (sample_args ["A.pdf"; "locked.pdf"; "docs/B.pdf"]
                    (Some ["1"; "2"])) io0
  = (IO [] ["If using --range, supply one per input or a single range applied to all."%string] [] ∅,
     inl (Py.SystemExit 2)).
Proof. reflexivity. Qed.

(** A missing input after a valid one: exit code 1, nothing written. *)
Example sample_missing :
  let res := main sample_world
                  (sample_args ["A.pdf"; "nowhere.pdf"] None) io0 in
  res.2 = inl (Py.SystemExit 1) ∧ files res.1 = ∅
  ∧ stderr res.1 = ["Missing file: nowhere.pdf"%string].
Proof. vm_compute. done. Qed.

End Samples.

(** * More on the range resolver *)

Section ResolverMore.

Implicit Types (rs : list interval) (total i : Z).

Lemma elem_of_page_indices rs total i :
  i ∈ page_indices rs total ↔
  (rs = [] ∧ 0 ≤ i < total) ∨
  (∃ s e, (s, e) ∈ rs ∧
          Z.max 1 (default 1 s) ≤ i + 1 ≤ Z.min total (default total e)).
Proof.
  destruct (decide (rs = [])) as [->|Hne].
  - rewrite page_indices_nil, elem_of_range. split.
    + intros H. left. split; [done | lia].
    + intros [[_ H]|(s & e & H & _)]; [lia | by apply elem_of_nil in H].
  - rewrite page_indices_cons, elem_of_keep_first, elem_of_traversal by done.
    split.
    + intros ([s e] & Hr & Hi). right. exists s, e. split; [done |].
      apply elem_of_interval_indices in Hi. lia.
    + intros [[? _]|(s & e & Hr & Hi)]; [done |]. exists (s, e).
      split; [done |]. apply elem_of_interval_indices. lia.
Qed.

(** X1.  With at least one interval, a page is selected exactly when
    some interval, its open ends replaced by 1 and [total] and clamped to
    the document, covers its 1-based number. *)
Theorem X1_page_indices_members rs total i :
  rs ≠ [] →
  (i ∈ page_indices rs total ↔
   ∃ s e, (s, e) ∈ rs ∧
          Z.max 1 (default 1 s) ≤ i + 1 ≤ Z.min total (default total e)).
Proof.
  intros Hne. rewrite elem_of_page_indices. split.
  - by intros [[? _]|H].
  - intros H. by right.
Qed.

Lemma X1_witness :
  [(None, Some 2); (Some 9, None)] ≠ ([] : list interval)
  ∧ (8 ∈ page_indices [(None, Some 2); (Some 9, None)] 10 ↔
     ∃ s e, (s, e) ∈ [(None, Some 2); (Some 9, None)] ∧
            Z.max 1 (default 1 s) ≤ 8 + 1 ≤ Z.min 10 (default 10 e)).
Proof.
  split; [discriminate |].
  apply (X1_page_indices_members [(None, Some 2); (Some 9, None)] 10 8).
  discriminate.
Defined.

(** X2.  A range never selects more pages than the document has. *)
Theorem X2_page_indices_length rs total :
  0 ≤ total → len (page_indices rs total) ≤ total.
Proof.
  intros Htotal.
  assert (page_indices rs total ⊆ Py.range 0 total) as Hsub.
  { intros i Hi. apply elem_of_range. by apply page_indices_bounds in Hi. }
  apply NoDup_submseteq in Hsub; [| apply NoDup_page_indices].
  apply submseteq_length in Hsub. rewrite length_range in Hsub.
  unfold len. lia.
Qed.

Lemma X2_witness :
  0 ≤ 3 ∧ len (page_indices [(None, None); (Some 1, Some 9)] 3) ≤ 3.
Proof.
  split; [lia |].
  apply (X2_page_indices_length [(None, None); (Some 1, Some 9)] 3). lia.
Defined.

(** X3.  Resolving two interval lists one after the other: the indices
    of the first list come first, as they are, and the second list adds,
    in its own order, only the indices the first did not select. *)
Theorem X3_page_indices_app rs1 rs2 total :
  rs1 ≠ [] → rs2 ≠ [] →
  page_indices (rs1 ++ rs2) total =
  page_indices rs1 total ++
  filter (λ i, i ∉ page_indices rs1 total) (page_indices rs2 total).
Proof.
  intros H1 H2. rewrite !page_indices_cons by (done || by destruct rs1).
  unfold traversal. rewrite bind_app, keep_first_app. f_equal.
  apply list_filter_iff. intros i. by rewrite elem_of_keep_first.
Qed.

Lemma X3_witness :
  page_indices ([(Some 8, Some 12)] ++ [(Some 3, Some 9)]) 20 =
  page_indices [(Some 8, Some 12)] 20 ++
  filter (λ i, i ∉ page_indices [(Some 8, Some 12)] 20)
         (page_indices [(Some 3, Some 9)] 20)
  ∧ page_indices ([(Some 8, Some 12)] ++ [(Some 3, Some 9)]) 20 =
    [7; 8; 9; 10; 11; 2; 3; 4; 5; 6].
Proof.
  split.
  - apply (X3_page_indices_app [(Some 8, Some 12)] [(Some 3, Some 9)] 20);
      discriminate.
  - vm_compute. reflexivity.
Defined.

(** X4.  A page selected in a document is selected, by the same
    intervals, in every longer document. *)
Theorem X4_page_indices_mono rs total total' i :
  total ≤ total' → i ∈ page_indices rs total → i ∈ page_indices rs total'.
Proof.
  intros Hle. rewrite !elem_of_page_indices.
  intros [[-> H]|(s & e & Hr & Hi)].
  - left. split; [done | lia].
  - right. exists s, e. split; [done |]. destruct e; cbn in *; lia.
Qed.

Lemma X4_witness :
  3 ≤ 7 ∧ 2 ∈ page_indices [(Some 2, None)] 3
  ∧ 2 ∈ page_indices [(Some 2, None)] 7.
Proof.
  assert (2 ∈ page_indices [(Some 2, None)] 3) as H.
  { apply (list_elem_of_lookup_2 _ 1). vm_compute. reflexivity. }
  split; [lia |]. split; [exact H |].
  apply (X4_page_indices_mono [(Some 2, None)] 3 7 2); [lia | exact H].
Defined.

(** X5.  A closed interval within the document selects exactly its
    pages, in ascending order: [s-1, ..., e-1]. *)
Theorem X5_page_indices_closed s e total :
  1 ≤ s → s ≤ e → e ≤ total →
  page_indices [(Some s, Some e)] total = Py.range (s - 1) e
  ∧ len (page_indices [(Some s, Some e)] total) = e - s + 1
  ∧ ∀ k, 0 ≤ k ≤ e - s →
         page_indices [(Some s, Some e)] total !! Z.to_nat k = Some (s - 1 + k).
Proof.
  intros H1 H2 H3.
  assert (page_indices [(Some s, Some e)] total = Py.range (s - 1) e) as ->.
  { rewrite page_indices_single. unfold interval_indices.
    rewrite Z.max_r, Z.min_r by lia.
    destruct (Z.leb_spec s e); [done | lia]. }
  split; [done |]. split.
  - unfold len. rewrite length_range. lia.
  - intros k Hk. unfold Py.range.
    rewrite <- (Z2Nat.id k) at 2 by lia. rewrite lookup_seqZ. split; lia.
Qed.

Lemma X5_witness :
  1 ≤ 3 ∧ 3 ≤ 5 ∧ 5 ≤ 10
  ∧ page_indices [(Some 3, Some 5)] 10 = Py.range (3 - 1) 5
  ∧ len (page_indices [(Some 3, Some 5)] 10) = 5 - 3 + 1.
Proof.
  split; [lia |]. split; [lia |]. split; [lia |].
  pose proof (X5_page_indices_closed 3 5 10 ltac:(lia) ltac:(lia) ltac:(lia))
    as (Ha & Hb & _).
  exact (conj Ha Hb).
Defined.

End ResolverMore.

(** * More on the range parser *)

Section ParserMore.

Implicit Types (s t a b : string) (toks : list string).

Lemma split_app sep a b :
  Py.split sep (a +:+ String sep b) = Py.split sep a ++ Py.split sep b.
Proof.
  induction a as [|c a IH].
  - rewrite str_app_nil_l. cbn [Py.split].
    by rewrite (proj2 (eqb_true sep sep) eq_refl).
  - rewrite str_app_cons. cbn [Py.split]. rewrite IH.
    destruct (Ascii.eqb c sep); [done |].
    pose proof (split_nonempty sep a).
    by destruct (Py.split sep a).
Qed.

Lemma parse_tokens_acc toks parts :
  parse_tokens toks parts =
  match parse_tokens toks [] with
  | inl e => inl e
  | inr ivs => inr (parts ++ ivs)
  end.
Proof.
  destruct (parse_tokens_spec toks parts) as [[-> H]|(ivs & -> & H)];
    destruct (parse_tokens_spec toks []) as [[-> H']|(ivs' & -> & H')];
    try done.
  - destruct H as (tok & Hin & Hne & Hbad).
    assert (Py.strip tok ∈ live (Py.strip <$> toks)) as Hmem.
    { apply list_elem_of_filter. split; [done |]. by apply list_elem_of_fmap_2. }
    apply list_elem_of_lookup in Hmem as [i Hi].
    destruct (Forall2_lookup_l _ _ _ _ _ H' Hi) as (iv & _ & Hiv).
    unfold parsed in Hiv. congruence.
  - destruct H' as (tok & Hin & Hne & Hbad).
    assert (Py.strip tok ∈ live (Py.strip <$> toks)) as Hmem.
    { apply list_elem_of_filter. split; [done |]. by apply list_elem_of_fmap_2. }
    apply list_elem_of_lookup in Hmem as [i Hi].
    destruct (Forall2_lookup_l _ _ _ _ _ H Hi) as (iv & _ & Hiv).
    unfold parsed in Hiv. congruence.
  - cbn [app]. do 2 f_equal. revert ivs' H'.
    induction H as [|t iv ts ivs0 Ht _ IH]; intros ivs' H'.
    + by apply Forall2_nil_inv_l in H'.
    + apply Forall2_cons_inv_l in H' as (iv' & ivs1 & Ht' & H' & ->).
      unfold parsed in *. f_equal; [congruence | by apply IH].
Qed.

Lemma parse_tokens_app toks1 toks2 parts :
  parse_tokens (toks1 ++ toks2) parts =
  match parse_tokens toks1 parts with
  | inl e => inl e
  | inr ivs => parse_tokens toks2 ivs
  end.
Proof.
  revert parts. induction toks1 as [|tok toks1 IH]; intros parts; [done |].
  cbn [app parse_tokens].
  destruct (negb (Py.truthy (Py.strip tok))); [apply IH |].
  destruct (parse_token (Py.strip tok)); [done | apply IH].
Qed.

(** X6.  A comma composes: what parses on both sides of a comma parses
    to the intervals of the left side followed by those of the right
    side, and an error on either side is the error of the whole. *)
Theorem X6_parse_range_comma a b :
  parse_range (a +:+ String "," b) =
  match parse_range a, parse_range b with
  | inr x, inr y => inr (x ++ y)
  | inl e, _ => inl e
  | inr _, inl e => inl e
  end.
Proof.
  unfold parse_range. rewrite split_app, parse_tokens_app.
  destruct (parse_tokens (Py.split "," a) []) as [e|x]; [done |].
  apply parse_tokens_acc.
Qed.

Lemma strip_strip t : Py.strip (Py.strip t) = Py.strip t.
Proof.
  symmetry. apply is_trim_unique.
  destruct (strip_is_trim t) as (_ & Hhead & Hlast).
  split; [| done]. exists EmptyString, EmptyString.
  rewrite str_app_nil_l, str_app_nil_r. split; [done |].
  split; apply blank_nil.
Qed.

Lemma strip_chars sep t : sep ∉ chars t → sep ∉ chars (Py.strip t).
Proof.
  destruct (strip_is_trim t) as ((l & r & Ht & _) & _).
  intros Hno Hin. apply Hno. rewrite Ht, !chars_app.
  apply elem_of_app. right. apply elem_of_app. by left.
Qed.

Lemma parse_tokens_live toks parts :
  parse_tokens (live (Py.strip <$> toks)) parts = parse_tokens toks parts.
Proof.
  revert parts. induction toks as [|tok toks IH]; intros parts; [done |].
  unfold live in *. rewrite fmap_cons, filter_cons. cbn [parse_tokens].
  destruct (Py.truthy (Py.strip tok)) eqn:Ht; cbn [negb].
  - apply truthy_true in Ht as Hne. rewrite decide_True by done.
    cbn [parse_tokens]. rewrite strip_strip, Ht. cbn [negb].
    destruct (parse_token (Py.strip tok)); [done | apply IH].
  - apply truthy_false in Ht. rewrite decide_False by (by intros ?).
    apply IH.
Qed.

Lemma parse_range_join toks :
  Forall (λ t, ","%char ∉ chars t) toks →
  parse_range (join "," toks) = parse_tokens toks [].
Proof.
  intros Hall. unfold parse_range.
  destruct (decide (toks = [])) as [->|Hne]; [done |].
  by rewrite split_join.
Qed.

(** X7.  Whitespace around the tokens and empty tokens do not matter:
    a specification and the one obtained by trimming its tokens and
    dropping the empty ones parse alike. *)
Theorem X7_parse_range_blanks toks :
  Forall (λ t, ","%char ∉ chars t) toks →
  parse_range (join "," toks) =
  parse_range (join "," (live (Py.strip <$> toks))).
Proof.
  intros Hall. rewrite !parse_range_join, ?parse_tokens_live; [done | |done].
  unfold live. apply Forall_forall. intros t [_ Ht]%list_elem_of_filter.
  apply list_elem_of_fmap in Ht as (tok & -> & Htok). apply strip_chars.
  by apply (proj1 (Forall_forall _ _) Hall).
Qed.

Lemma X7_witness :
  Forall (λ t, ","%char ∉ chars t)
         [" 1 "; ""; "3 - 4"; "  "; "-2 "]%string
  ∧ parse_range " 1 ,,3 - 4,  ,-2 " = parse_range "1,3 - 4,-2"
  ∧ parse_range "1,3 - 4,-2" =
    inr [(Some 1, Some 1); (Some 3, Some 4); (None, Some 2)].
Proof.
  assert (Forall (λ t, ","%char ∉ chars t)
                 [" 1 "; ""; "3 - 4"; "  "; "-2 "]%string) as Hall.
  { repeat constructor; intros Hin;
      repeat (apply elem_of_cons in Hin as [Hin|Hin]; [discriminate |]);
      by apply elem_of_nil in Hin. }
  split; [exact Hall |]. split.
  - exact (X7_parse_range_blanks [" 1 "; ""; "3 - 4"; "  "; "-2 "]%string Hall).
  - vm_compute. reflexivity.
Defined.

End ParserMore.

(** * More on the merge driver *)

Section DriverMore.

Context {page : Type}.
Implicit Types (W : world page) (a : args) (w writer : PdfWriter page)
         (rd : reader page) (s : io page) (p : string) (r : option string)
         (x : string * option string) (l : list (string * option string)).

Local Arguments page_indices : simpl never.
Local Arguments parse_range : simpl never.
Local Arguments Py.basename : simpl never.
Local Arguments Py.str_of_int : simpl never.
Local Arguments String.append : simpl never.
Local Arguments Py.is_Exception : simpl never.
Local Arguments add_indexed : simpl never.
Local Arguments add_all : simpl never.
Local Arguments Z.sub : simpl never.
Local Arguments Z.add : simpl never.
Local Arguments Z.of_nat : simpl never.

Ltac step :=
  unfold process_input, load, apply_metadata, bind, try_except, lift, log,
    print, eprint, sys_exit, raise, ret, write_file in *;
  simpl in *.

(** *** One input, in full *)

Lemma skipped_cases W a p :
  skipped W a p = true →
  exclude_encrypted a = true ∧
  (PdfReader W p = inl Py.FileNotDecryptedError
   ∨ ∃ rd, PdfReader W p = inr rd ∧ decrypt_raises rd).
Proof.
  unfold skipped. intros [Hex H]%andb_true_iff. split; [done |].
  destruct (PdfReader W p) as [e|rd]; [destruct e; try done; by left |].
  right. exists rd. split; [done |].
  apply andb_true_iff in H as [Henc H]. split; [done |].
  destruct (decrypt_empty rd) as [e|]; [by exists e | done].
Qed.

Lemma process_input_exists W a w p r s s' w' :
  process_input W a w p r s = (s', inr w') → path_exists W p = true.
Proof.
  destruct (path_exists W p) eqn:Hex; [done |]. step. by rewrite Hex.
Qed.

Lemma selected_pages_length W a x :
  input_ok W a x → len (selected_pages W a x) = selected_count W a x.
Proof.
  destruct x as [p r]. unfold input_ok. cbn [fst snd].
  intros [_ [Hs|(rd & rng & Hrd & Hacc & Hrng)]].
  - unfold selected_pages, selected_count. cbn [fst]. by rewrite Hs.
  - rewrite (selected_count_ok W a p r rd rng) by done.
    unfold selected_pages. cbn [fst snd].
    by rewrite (skipped_accepted W a p rd), Hrd, Hrng.
Qed.

Lemma selected_count_nonneg W a x : 0 ≤ selected_count W a x.
Proof.
  unfold selected_count, len.
  repeat case_match; lia.
Qed.

(** The loop body on an input that is read, with what it prints. *)
Lemma process_input_read W a w p r s rd rng :
  path_exists W p = true → PdfReader W p = inr rd → accepted rd →
  range_of r = inr rng →
  process_input W a w p r s =
  (IO (stdout s ++
       (if verbose a then
          [p +:+ ": " +:+
           Py.str_of_int
             (len (pages_at (pages rd) (page_indices rng (len (pages rd)))))
           +:+ " pages (range=" +:+
           (if opt_truthy r then default EmptyString r else "ALL")
           +:+ ")"]
        else []))
      (stderr s) (events s ++ [EvExists p; EvRead p]) (files s),
   inr (Writer
          (w_pages w ++
           pages_at (pages rd) (page_indices rng (len (pages rd))))
          (w_outline w ++
           (if bookmarks a then [(Py.basename p, len (w_pages w))] else []))
          (w_metadata w))).
Proof.
  intros Hex Hrd [Hacc Hpages] Hrng.
  assert (∀ s0, load W a p s0 =
            (IO (stdout s0) (stderr s0) (events s0 ++ [EvRead p]) (files s0),
             inr (Some rd))) as Hload.
  { intros s0. step. rewrite Hrd. simpl.
    destruct Hacc as [->| ->]; [done |]. by destruct (is_encrypted rd). }
  unfold process_input, bind at 1, log. rewrite Hex. cbn [negb].
  unfold bind at 1. rewrite Hload. cbn [events stdout stderr files].
  rewrite Hpages. unfold bind at 1, ret at 1. cbv beta iota.
  unfold range_of in Hrng.
  assert ((if opt_truthy r then lift (parse_range (default EmptyString r))
           else ret []) =
          (ret rng : M page _)) as ->.
  { destruct (opt_truthy r); unfold lift, ret; [by rewrite Hrng |].
    by injection Hrng as <-. }
  assert ((if bool_decide (rng = []) then ret (add_all rd w)
           else lift (add_indexed rd (page_indices rng (len (pages rd))) w))
          = (ret (Writer
                (w_pages w ++
                 pages_at (pages rd) (page_indices rng (len (pages rd))))
                (w_outline w) (w_metadata w)) : M page _)) as Hadd.
  { case_bool_decide as Hr.
    - subst rng. by rewrite add_all_pages, page_indices_nil, pages_at_all.
    - unfold lift, ret.
      destruct (add_indexed_ok rd (page_indices rng (len (pages rd))) w)
        as [-> _]; [| done].
      apply Forall_forall. intros i. apply page_indices_bounds. }
  unfold bind at 1, ret at 1. cbv beta iota.
  rewrite Hadd, <- app_assoc. cbn [app].
  rewrite (selected_length rd rng). clear Hload Hadd.
  pose proof (selected_length rd rng) as Hlen.
  step. destruct (verbose a), (bookmarks a); simpl;
    rewrite ?app_nil_r, ?len_app, ?Hlen; unfold add_outline_item; simpl;
    repeat f_equal; lia.
Qed.

(** An input that is in order goes through the loop body as described by
    [selected_pages], [bookmarks_of], [input_lines] and [input_events]. *)
Lemma process_input_spec W a w p r s :
  input_ok W a (p, r) →
  process_input W a w p r s =
  (IO (stdout s ++ input_lines W a (p, r)) (stderr s)
      (events s ++ input_events (p, r)) (files s),
   inr (Writer (w_pages w ++ selected_pages W a (p, r))
               (w_outline w ++
                (if bookmarks a
                 then bookmarks_of W a (len (w_pages w)) [(p, r)] else []))
               (w_metadata w))).
Proof.
  unfold input_ok. cbn [fst snd].
  intros [Hex [Hs|(rd & rng & Hrd & Hacc & Hrng)]].
  - unfold selected_pages, input_lines, input_events, bookmarks_of.
    cbn [fst snd]. rewrite Hs. cbn [app].
    assert ((if bookmarks a then [] else []) = ([] : list (string * Z)))
      as -> by by destruct (bookmarks a).
    rewrite !app_nil_r.
    destruct (skipped_cases W a p Hs) as [Hflag [Hrd|(rd & Hrd & Hfail)]].
    + rewrite Hrd. rewrite (process_input_undecrypted W a w p r s) by done.
      by destruct w.
    + rewrite Hrd. rewrite (process_input_skip W a w p r s rd) by done.
      by destruct w.
  - pose proof (skipped_accepted W a p rd Hrd Hacc) as Hs.
    pose proof (selected_count_ok W a p r rd rng Hrd Hacc Hrng) as Hcount.
    unfold selected_pages, input_lines, input_events, bookmarks_of.
    cbn [fst snd]. rewrite Hs, Hrd, Hrng, Hcount. cbn [app].
    by rewrite (process_input_read W a w p r s rd rng).
Qed.

Lemma process_input_inv_ok W a w p r s s' w' :
  process_input W a w p r s = (s', inr w') → input_ok W a (p, r).
Proof.
  intros H. split; [by eapply process_input_exists |]. cbn [fst snd].
  destruct (process_input_inv _ _ _ _ _ _ _ _ H)
    as [(Hs & _)|(rd & rng & _ & Hrd & Hacc & Hrng)]; [by left |].
  right. by exists rd, rng.
Qed.

(** *** The loop, in full *)

Lemma bookmarks_of_cons W a n x l :
  bookmarks_of W a n (x :: l) =
  bookmarks_of W a n [x] ++ bookmarks_of W a (n + selected_count W a x) l.
Proof. cbn [bookmarks_of]. by rewrite app_nil_r. Qed.

Lemma process_inputs_spec W a l w s :
  Forall (input_ok W a) l →
  process_inputs W a l w s =
  (IO (stdout s ++ l ≫= input_lines W a) (stderr s)
      (events s ++ l ≫= input_events) (files s),
   inr (Writer (w_pages w ++ l ≫= selected_pages W a)
               (w_outline w ++
                (if bookmarks a then bookmarks_of W a (len (w_pages w)) l
                 else []))
               (w_metadata w))).
Proof.
  intros Hall. revert w s.
  induction Hall as [|[p r] l Hx Hl IH]; intros w s.
  - cbn. destruct (bookmarks a); rewrite !app_nil_r; by destruct w, s.
  - cbn [process_inputs]. unfold bind.
    rewrite (process_input_spec W a w p r s Hx), IH.
    cbn [stdout stderr events files w_pages w_outline w_metadata].
    rewrite !bind_cons, <- !app_assoc, (bookmarks_of_cons W a _ (p, r) l).
    rewrite len_app, (selected_pages_length W a (p, r) Hx).
    by destruct (bookmarks a); rewrite ?app_nil_r.
Qed.

Lemma process_inputs_inv_ok W a l w s s' w' :
  process_inputs W a l w s = (s', inr w') → Forall (input_ok W a) l.
Proof.
  revert w s. induction l as [|[p r] l IH]; intros w s; [constructor |].
  cbn [process_inputs]. unfold bind.
  destruct (process_input W a w p r s) as [t [e|w1]] eqn:E; [done |].
  intros H. constructor; [by eapply process_input_inv_ok | by eapply IH].
Qed.

(** A loop that fails has gone through the inputs before the failing
    one. *)
Lemma process_inputs_inv_fail W a l w s s' e :
  process_inputs W a l w s = (s', inl e) →
  ∃ pre p r post s1 w1,
    l = pre ++ (p, r) :: post ∧
    process_inputs W a pre w s = (s1, inr w1) ∧
    process_input W a w1 p r s1 = (s', inl e).
Proof.
  revert w s. induction l as [|[p r] l IH]; intros w s; [done |].
  cbn [process_inputs]. unfold bind at 1.
  destruct (process_input W a w p r s) as [t [e0|w1]] eqn:E.
  - intros [= <- <-]. by exists [], p, r, l, s, w.
  - intros (pre & p' & r' & post & s1 & w2 & -> & Hpre & Hfail)%IH.
    exists ((p, r) :: pre), p', r', post, s1, w2. split; [done |].
    split; [| done]. cbn [process_inputs]. unfold bind. by rewrite E.
Qed.

Lemma process_inputs_abort W a pre p r post w s s1 w1 s' e :
  process_inputs W a pre w s = (s1, inr w1) →
  process_input W a w1 p r s1 = (s', inl e) →
  process_inputs W a (pre ++ (p, r) :: post) w s = (s', inl e).
Proof.
  intros Hpre Hfail. rewrite process_inputs_app. unfold bind at 1.
  rewrite Hpre. cbn [process_inputs]. unfold bind. by rewrite Hfail.
Qed.

(** *** The end of the run *)

Lemma apply_metadata_state W a w s : (apply_metadata W a w s).1 = s.
Proof.
  unfold apply_metadata. destruct (opt_truthy (metadata a)); [| done].
  unfold bind, lift.
  destruct (json_loads W (default EmptyString (metadata a))); [done |].
  cbv beta iota. case_match; [done |]. by case_bool_decide.
Qed.

Lemma finish_cases W a w s :
  (∃ e, apply_metadata W a w s = (s, inl e) ∧ finish W a w s = (s, inl e))
  ∨ (∃ wf, apply_metadata W a w s = (s, inr wf) ∧
           finish W a w s =
           (IO (stdout s ++
                (if quiet a then [] else ["Wrote " +:+ output a]))
               (stderr s) (events s ++ [EvWrite (output a)])
               (<[output a := wf]> (files s)),
            inr tt)).
Proof.
  pose proof (apply_metadata_state W a w s) as Hs.
  destruct (apply_metadata W a w s) as [s1 [e|wf]] eqn:E; cbn in Hs; subst s1.
  - left. exists e. split; [done |]. unfold finish, bind. by rewrite E.
  - right. exists wf. split; [done |].
    unfold finish, bind, write_file, print, ret. rewrite E.
    destruct (quiet a); cbn; by rewrite ?app_nil_r.
Qed.

Lemma main_abort W a pre p r post s s1 w1 s' e :
  bad_range_count a = false →
  zip (inputs a) (normalize_ranges a) = pre ++ (p, r) :: post →
  process_inputs W a pre new_writer s = (s1, inr w1) →
  process_input W a w1 p r s1 = (s', inl e) →
  main W a s = (s', inl e).
Proof.
  intros Hok Hzip Hpre Hfail. rewrite main_unfold by done.
  unfold bind at 1.
  by rewrite Hzip, (process_inputs_abort W a pre p r post _ s s1 w1 s' e).
Qed.

(** *** What writes a file *)

Lemma keeps_files_lift {A} (x : Py.exn + A) : keeps_files (lift x : M page A).
Proof. done. Qed.

Lemma keeps_files_print line : keeps_files (print line : M page unit).
Proof. done. Qed.

Lemma keeps_files_eprint line : keeps_files (eprint line : M page unit).
Proof. done. Qed.

Lemma keeps_files_log ev : keeps_files (log ev : M page unit).
Proof. done. Qed.

Lemma keeps_files_bind {A B} (m : M page A) (k : A → M page B) :
  keeps_files m → (∀ y, keeps_files (k y)) → keeps_files (y <- m ;; k y).
Proof.
  intros Hm Hk s. unfold bind. specialize (Hm s).
  destruct (m s) as [t [e|y]]; [done |]. cbn in Hm. by rewrite Hk.
Qed.

Lemma keeps_files_try_except {A} (m : M page A) h :
  keeps_files m → (∀ e k, h e = Some k → keeps_files k) →
  keeps_files (try_except m h).
Proof.
  intros Hm Hh s. unfold try_except. specialize (Hm s).
  destruct (m s) as [t [e|y]]; [| done]. cbn in Hm.
  destruct (h e) as [k|] eqn:E; [| done]. by rewrite (Hh e k E).
Qed.

Ltac keeps_step :=
  first
    [ apply keeps_files_lift | apply keeps_files_print
    | apply keeps_files_eprint | apply keeps_files_log
    | apply keeps_files_bind; [| intros ?]
    | match goal with
      | |- keeps_files (if ?b then _ else _) => destruct b
      | |- keeps_files (match ?x with _ => _ end) => destruct x
      end ].

Lemma keeps_files_load W a p : keeps_files (load W a p).
Proof.
  unfold load. apply keeps_files_try_except.
  - unfold sys_exit, raise, ret. repeat keeps_step.
  - intros e k Hk. destruct e; try done.
    injection Hk as <-. unfold sys_exit, raise, ret. repeat keeps_step.
Qed.

Lemma keeps_files_process_input W a w p r :
  keeps_files (process_input W a w p r).
Proof.
  unfold process_input, sys_exit, raise, ret.
  apply keeps_files_bind; [apply keeps_files_log | intros _].
  destruct (negb (path_exists W p)); [repeat keeps_step |].
  apply keeps_files_bind; [apply keeps_files_load | intros [rd|]];
    repeat keeps_step.
Qed.

Lemma keeps_files_process_inputs W a l w :
  keeps_files (process_inputs W a l w).
Proof.
  revert w. induction l as [|[p r] l IH]; intros w; [done |].
  cbn [process_inputs].
  apply keeps_files_bind; [apply keeps_files_process_input | done].
Qed.

Lemma no_write_lift {A} (x : Py.exn + A) : no_write (lift x : M page A).
Proof. intros s. exists []. by rewrite app_nil_r. Qed.

Lemma no_write_print line : no_write (print line : M page unit).
Proof. intros s. exists []. by rewrite app_nil_r. Qed.

Lemma no_write_eprint line : no_write (eprint line : M page unit).
Proof. intros s. exists []. by rewrite app_nil_r. Qed.

Lemma no_write_log ev :
  is_write ev = false → no_write (log ev : M page unit).
Proof. intros Hev s. exists [ev]. split; [done | by constructor]. Qed.

Lemma no_write_bind {A B} (m : M page A) (k : A → M page B) :
  no_write m → (∀ y, no_write (k y)) → no_write (y <- m ;; k y).
Proof.
  intros Hm Hk s. unfold bind. destruct (Hm s) as (e1 & H1 & F1).
  destruct (m s) as [t [e|y]]; cbn in H1; [by exists e1 |].
  destruct (Hk y t) as (e2 & H2 & F2). exists (e1 ++ e2).
  rewrite H2, H1, app_assoc. split; [done | by apply Forall_app].
Qed.

Lemma no_write_try_except {A} (m : M page A) h :
  no_write m → (∀ e k, h e = Some k → no_write k) →
  no_write (try_except m h).
Proof.
  intros Hm Hh s. unfold try_except. destruct (Hm s) as (e1 & H1 & F1).
  destruct (m s) as [t [e|y]]; cbn in H1; [| by exists e1].
  destruct (h e) as [k|] eqn:E; [| by exists e1].
  destruct (Hh e k E t) as (e2 & H2 & F2). exists (e1 ++ e2).
  rewrite H2, H1, app_assoc. split; [done | by apply Forall_app].
Qed.

Ltac no_write_step :=
  first
    [ apply no_write_lift | apply no_write_print
    | apply no_write_eprint | apply no_write_log; reflexivity
    | apply no_write_bind; [| intros ?]
    | match goal with
      | |- no_write (if ?b then _ else _) => destruct b
      | |- no_write (match ?x with _ => _ end) => destruct x
      end ].

Lemma no_write_load W a p : no_write (load W a p).
Proof.
  unfold load. apply no_write_try_except.
  - unfold sys_exit, raise, ret. repeat no_write_step.
  - intros e k Hk. destruct e; try done.
    injection Hk as <-. unfold sys_exit, raise, ret. repeat no_write_step.
Qed.

Lemma no_write_process_input W a w p r : no_write (process_input W a w p r).
Proof.
  unfold process_input, sys_exit, raise, ret.
  apply no_write_bind; [by apply no_write_log | intros _].
  destruct (negb (path_exists W p)); [repeat no_write_step |].
  apply no_write_bind; [apply no_write_load | intros [rd|]];
    repeat no_write_step.
Qed.

Lemma no_write_process_inputs W a l w : no_write (process_inputs W a l w).
Proof.
  revert w. induction l as [|[p r] l IH]; intros w.
  - intros s. exists []. by rewrite app_nil_r.
  - cbn [process_inputs].
    apply no_write_bind; [apply no_write_process_input | done].
Qed.

(** *** How one input fails *)

Lemma process_input_missing W a w p r s :
  path_exists W p = false →
  process_input W a w p r s =
  (IO (stdout s) (stderr s ++ ["Missing file: " +:+ p])
      (events s ++ [EvExists p]) (files s),
   inl (Py.SystemExit 1)).
Proof. intros Hex. step. by rewrite Hex. Qed.

Lemma process_input_encrypted W a w p r s :
  path_exists W p = true → exclude_encrypted a = false →
  (PdfReader W p = inl Py.FileNotDecryptedError
   ∨ ∃ rd, PdfReader W p = inr rd ∧ decrypt_raises rd) →
  process_input W a w p r s =
  (IO (stdout s) (stderr s ++ ["Encrypted file requires password: " +:+ p])
      (events s ++ [EvExists p; EvRead p]) (files s),
   inl (Py.SystemExit 1)).
Proof.
  intros Hex Hflag [Hrd|(rd & Hrd & Henc & e & He & Hexc)]; step;
    rewrite Hex, Hrd; simpl; rewrite ?Henc, ?He, ?Hexc, ?Hflag; simpl;
    by rewrite <- app_assoc.
Qed.

Lemma process_input_bad_range W a w p spec s rd :
  path_exists W p = true → PdfReader W p = inr rd → accepted rd →
  spec ≠ EmptyString → bad_range_spec spec →
  process_input W a w p (Some spec) s =
  (IO (stdout s) (stderr s) (events s ++ [EvExists p; EvRead p]) (files s),
   inl Py.ValueError).
Proof.
  intros Hex Hrd Hacc Hne Hbad. apply bad_range_spec_raises in Hbad.
  apply truthy_true in Hne. step. rewrite Hex, Hrd. simpl.
  destruct Hacc as [[Henc|Hdec] Hpages].
  - rewrite Henc. simpl. rewrite Hpages, Hne, Hbad. simpl.
    by rewrite <- app_assoc.
  - rewrite Hdec. destruct (is_encrypted rd); simpl;
      rewrite Hpages, Hne, Hbad; simpl; by rewrite <- app_assoc.
Qed.

Lemma process_input_unreadable W a w p r s rd e :
  path_exists W p = true → PdfReader W p = inr rd →
  is_encrypted rd = false ∨ decrypt_empty rd = None →
  pages_error rd = Some e →
  process_input W a w p r s =
  (IO (stdout s) (stderr s) (events s ++ [EvExists p; EvRead p]) (files s),
   inl e).
Proof.
  intros Hex Hrd Hacc Hpg. step. rewrite Hex, Hrd. simpl.
  destruct Hacc as [Henc|Hdec].
  - rewrite Henc. simpl. rewrite Hpg. simpl. by rewrite <- app_assoc.
  - rewrite Hdec. destruct (is_encrypted rd); simpl; rewrite Hpg; simpl;
      by rewrite <- app_assoc.
Qed.

(** Every failure of the loop body: an exit with code 1 after one line
    on the standard error, or an exception that is not caught, without
    any line. *)
Lemma process_input_fail W a w p r s s' e :
  world_sane W → process_input W a w p r s = (s', inl e) →
  stdout s' = stdout s ∧
  ((e = Py.SystemExit 1 ∧ ∃ line, stderr s' = stderr s ++ [line])
   ∨ (Py.is_Exception e = true ∧ stderr s' = stderr s)).
Proof.
  intros (Hopen & Hdec & _) H.
  destruct (path_exists W p) eqn:Hex.
  2:{ rewrite process_input_missing in H by done. injection H as <- <-.
      split; [done |]. left. split; [done |]. by eexists. }
  assert (∀ rd, PdfReader W p = inr rd →
            is_encrypted rd = false ∨ decrypt_empty rd = None →
            stdout s' = stdout s ∧
            ((e = Py.SystemExit 1 ∧ ∃ line, stderr s' = stderr s ++ [line])
             ∨ (Py.is_Exception e = true ∧ stderr s' = stderr s))) as Hread.
  { intros rd Hrd Hacc0. destruct (pages_error rd) as [e2|] eqn:Hpg.
    { rewrite (process_input_unreadable W a w p r s rd e2) in H by done.
      injection H as <- <-. split; [done |]. right. split; [| done].
      destruct e2; try done. by destruct (Hdec p rd code Hrd) as [_ ?]. }
    assert (accepted rd) as Hacc by done.
    destruct (range_of r) as [e1|rng] eqn:Hrng.
    - unfold range_of in Hrng.
      destruct (opt_truthy r) eqn:Hr; [| done].
      destruct r as [spec|]; [| done]. cbn in Hr, Hrng.
      assert (e1 = Py.ValueError ∧ bad_range_spec spec) as [-> Hbad]
          by by apply parse_range_inl.
      rewrite (process_input_bad_range W a w p spec s rd) in H;
        [| done | done | done | by apply truthy_true | done].
      injection H as <- <-. split; [done |]. by right.
    - by rewrite (process_input_read W a w p r s rd rng) in H. }
  destruct (PdfReader W p) as [e0|rd] eqn:Hrd.
  - destruct (exclude_encrypted a) eqn:Hflag.
    + destruct e0;
        try (step; rewrite Hex, Hrd in H; simpl in H; injection H as <- <-;
             split; [done |]; right; split; done).
      * by rewrite process_input_undecrypted in H.
      * by destruct (Hopen p code).
    + destruct e0;
        try (step; rewrite Hex, Hrd in H; simpl in H; injection H as <- <-;
             split; [done |]; right; split; done).
      * rewrite process_input_encrypted in H by auto.
        injection H as <- <-. split; [done |]. left. split; [done |].
        by eexists.
      * by destruct (Hopen p code).
  - destruct (is_encrypted rd) eqn:Henc; [| apply (Hread rd); by try left].
    destruct (decrypt_empty rd) as [e0|] eqn:He;
      [| apply (Hread rd); by try right].
    destruct (Py.is_Exception e0) eqn:Hexc.
    2:{ destruct e0; try done. by destruct (Hdec p rd code Hrd) as [? _]. }
    assert (decrypt_raises rd) as Hfail by (split; [done | by exists e0]).
    destruct (exclude_encrypted a) eqn:Hflag.
    + by rewrite (process_input_skip W a w p r s rd) in H.
    + rewrite process_input_encrypted in H by eauto.
      injection H as <- <-. split; [done |]. left. split; [done |].
      by eexists.
Qed.

(** *** The metadata *)

Lemma collect_info_obj (meta : gmap string json) keys info :
  collect_info (JObj meta) keys info =
  inr (foldl (λ (info : gmap string json) k,
                match meta !! k with
                | Some v => <[("/" +:+ k) := v]> info
                | None => info
                end)
             info keys).
Proof.
  revert info. induction keys as [|k keys IH]; intros info; [done |].
  cbn [collect_info json_contains json_getitem foldl].
  destruct (meta !! k) as [v|] eqn:E.
  - rewrite bool_decide_true by done. apply IH.
  - rewrite bool_decide_false by (by intros [? ?]). apply IH.
Qed.

Lemma collect_info_usable meta :
  metadata_usable meta = true ↔
  ∃ info, collect_info meta metadata_keys ∅ = inr info.
Proof.
  destruct meta as [| b | n | t | l | m]; cbn;
    try (split; [done | by intros [? ?]]).
  - destruct (Py.str_in "Title" t), (Py.str_in "Author" t),
      (Py.str_in "Subject" t), (Py.str_in "Keywords" t); cbn;
      (split; [intros ?; try done; by eexists | by intros [? ?]]).
  - destruct (existsb (json_is_str "Title") l),
      (existsb (json_is_str "Author") l),
      (existsb (json_is_str "Subject") l),
      (existsb (json_is_str "Keywords") l); cbn;
      (split; [intros ?; try done; by eexists | by intros [? ?]]).
  - split; [intros _ | done].
    change (∃ info, collect_info (JObj m) metadata_keys ∅ = inr info).
    rewrite collect_info_obj. by eexists.
Qed.

Lemma collect_info_exn meta keys info e :
  collect_info meta keys info = inl e → Py.is_Exception e = true.
Proof.
  revert info. induction keys as [|k keys IH]; intros info; [done |].
  cbn [collect_info].
  destruct (json_contains k meta) as [e1|[|]] eqn:Hc.
  - destruct meta; cbn in Hc; try done; injection Hc as <-;
      by intros [= <-].
  - destruct (json_getitem meta k) as [e1|v] eqn:Hg; [| apply IH].
    destruct meta; cbn in Hg; try (injection Hg as <-; by intros [= <-]).
    case_match; [done |]. injection Hg as <-. by intros [= <-].
  - apply IH.
Qed.

Lemma collect_info_unusable meta :
  metadata_usable meta = false →
  collect_info meta metadata_keys ∅ = inl Py.TypeError.
Proof.
  destruct meta as [| b | n | t | l | m]; cbn; try done.
  - destruct (Py.str_in "Title" t), (Py.str_in "Author" t),
      (Py.str_in "Subject" t), (Py.str_in "Keywords" t); cbn; done.
  - destruct (existsb (json_is_str "Title") l),
      (existsb (json_is_str "Author") l),
      (existsb (json_is_str "Subject") l),
      (existsb (json_is_str "Keywords") l); cbn; done.
Qed.

Lemma bookmarks_of_skip W a n pre p r post :
  skipped W a p = true →
  bookmarks_of W a n (pre ++ (p, r) :: post) =
  bookmarks_of W a n (pre ++ post).
Proof.
  intros Hsk. revert n.
  induction pre as [|x pre IH]; intros n; cbn [app bookmarks_of].
  - unfold selected_count. cbn [fst]. rewrite Hsk. cbn [app].
    by rewrite Z.add_0_r.
  - by rewrite IH.
Qed.

Lemma metadata_info (meta : gmap string json) :
  let info :=
    foldl (λ (info : gmap string json) k,
             match meta !! k with
             | Some v => <[("/" +:+ k) := v]> info
             | None => info
             end)
          ∅ ["Title"; "Author"; "Subject"; "Keywords"]%string in
  (∀ k, k ∈ metadata_keys → info !! ("/" +:+ k) = meta !! k)
  ∧ (∀ key, (∀ k, k ∈ metadata_keys → key ≠ "/" +:+ k) → info !! key = None).
Proof.
  cbn [foldl]. split.
  - intros k Hk. unfold metadata_keys in Hk.
    repeat (apply elem_of_cons in Hk as [->|Hk]);
      [| | | | by apply elem_of_nil in Hk];
      destruct (meta !! "Title"%string), (meta !! "Author"%string),
               (meta !! "Subject"%string), (meta !! "Keywords"%string);
      repeat first [ rewrite lookup_insert_eq
                   | rewrite lookup_insert_ne by (cbv; discriminate)
                   | rewrite lookup_empty ];
      reflexivity.
  - intros key Hkey.
    assert (key ≠ "/" +:+ "Title") by (apply Hkey; set_solver).
    assert (key ≠ "/" +:+ "Author") by (apply Hkey; set_solver).
    assert (key ≠ "/" +:+ "Subject") by (apply Hkey; set_solver).
    assert (key ≠ "/" +:+ "Keywords") by (apply Hkey; set_solver).
    destruct (meta !! "Title"%string), (meta !! "Author"%string),
             (meta !! "Subject"%string), (meta !! "Keywords"%string);
      repeat first [ rewrite lookup_insert_ne by done
                   | rewrite lookup_empty ];
      reflexivity.
Qed.

Lemma apply_metadata_lookup W a w s wf meta :
  opt_truthy (metadata a) = true →
  json_loads W (default EmptyString (metadata a)) = inr (JObj meta) →
  apply_metadata W a w s = (s, inr wf) →
  (∀ k, k ∈ metadata_keys →
        w_metadata wf !! ("/" +:+ k) =
        match meta !! k with
        | Some v => Some v
        | None => w_metadata w !! ("/" +:+ k)
        end)
  ∧ (∀ key, (∀ k, k ∈ metadata_keys → key ≠ "/" +:+ k) →
            w_metadata wf !! key = w_metadata w !! key).
Proof.
  intros Hm Hjson. unfold apply_metadata. rewrite Hm. unfold bind, lift.
  rewrite Hjson, collect_info_obj. destruct (metadata_info meta) as [Hin Hout].
  cbv zeta in Hin, Hout |- *.
  set (info := foldl _ _ _) in *. clearbody info.
  case_bool_decide as Hempty.
  - rewrite Hempty in Hin, Hout. intros [= <-]. split.
    + intros k Hk. specialize (Hin k Hk). rewrite lookup_empty in Hin.
      by rewrite <- Hin.
    + done.
  - intros [= <-]. unfold add_metadata. cbn [w_metadata]. split.
    + intros k Hk. rewrite lookup_union, (Hin k Hk).
      destruct (meta !! k); [| by rewrite (left_id_L None _)].
      by destruct (w_metadata w !! ("/" +:+ k)).
    + intros key Hkey. by rewrite lookup_union, (Hout key Hkey), (left_id_L None _).
Qed.

(** *** The whole run, in full *)

Lemma main_loop W a s :
  Forall (input_ok W a) (zip (inputs a) (normalize_ranges a)) →
  let l := zip (inputs a) (normalize_ranges a) in
  process_inputs W a l new_writer s =
  (IO (stdout s ++ l ≫= input_lines W a) (stderr s)
      (events s ++ l ≫= input_events) (files s),
   inr (Writer (l ≫= selected_pages W a)
               (if bookmarks a then bookmarks_of W a 0 l else []) ∅)).
Proof. intros Hall l. by rewrite process_inputs_spec. Qed.

(** A run that ends well, read backwards. *)
Lemma main_inv_full W a s s' :
  main W a s = (s', inr tt) →
  let l := zip (inputs a) (normalize_ranges a) in
  bad_range_count a = false ∧ Forall (input_ok W a) l ∧
  ∃ wf,
    apply_metadata W a
      (Writer (l ≫= selected_pages W a)
              (if bookmarks a then bookmarks_of W a 0 l else []) ∅)
      (IO (stdout s ++ l ≫= input_lines W a) (stderr s)
          (events s ++ l ≫= input_events) (files s))
    = (IO (stdout s ++ l ≫= input_lines W a) (stderr s)
          (events s ++ l ≫= input_events) (files s), inr wf)
    ∧ w_pages wf = l ≫= selected_pages W a
    ∧ w_outline wf = (if bookmarks a then bookmarks_of W a 0 l else [])
    ∧ s' = IO (stdout s ++ (l ≫= input_lines W a) ++
               (if quiet a then [] else ["Wrote " +:+ output a]))
              (stderr s)
              (events s ++ (l ≫= input_events) ++ [EvWrite (output a)])
              (<[output a := wf]> (files s)).
Proof.
  intros H l.
  destruct (bad_range_count a) eqn:Hb; [by rewrite main_refused in H |].
  split; [done |]. rewrite main_unfold in H by done. unfold bind at 1 in H.
  fold l in H.
  destruct (process_inputs W a l new_writer s) as [s1 [e|w1]] eqn:E; [done |].
  pose proof (process_inputs_inv_ok _ _ _ _ _ _ _ E) as Hall.
  split; [done |]. pose proof (main_loop W a s Hall) as Hloop.
  cbv zeta in Hloop. fold l in Hloop. rewrite Hloop in E.
  injection E as <- <-.
  destruct (finish_cases W a
              (Writer (l ≫= selected_pages W a)
                 (if bookmarks a then bookmarks_of W a 0 l else []) ∅)
              (IO (stdout s ++ l ≫= input_lines W a) (stderr s)
                  (events s ++ l ≫= input_events) (files s)))
    as [(e & _ & Hf)|(wf & Hm & Hf)]; rewrite Hf in H; [done |].
  injection H as <-. exists wf. split; [done |].
  apply apply_metadata_inv in Hm as (Hp & Ho & _).
  split; [done |]. split; [done |]. cbn. by rewrite <- !app_assoc.
Qed.

(** A run whose inputs are in order and whose metadata can be used. *)
Lemma main_spec W a s :
  bad_range_count a = false →
  Forall (input_ok W a) (zip (inputs a) (normalize_ranges a)) →
  (opt_truthy (metadata a) = true →
   ∃ meta, json_loads W (default EmptyString (metadata a)) = inr meta
           ∧ metadata_usable meta = true) →
  ∃ s', main W a s = (s', inr tt).
Proof.
  intros Hb Hall Hmeta. rewrite main_unfold by done. unfold bind at 1.
  pose proof (main_loop W a s Hall) as Hloop. cbv zeta in Hloop.
  rewrite Hloop.
  match goal with |- context [finish W a ?w ?t] =>
    destruct (finish_cases W a w t) as [(e & Hm & _)|(wf & _ & ->)];
      [| by eexists]
  end.
  exfalso. unfold apply_metadata in Hm.
  destruct (opt_truthy (metadata a)); [| done].
  destruct Hmeta as (meta & Hjson & Huse); [done |]. unfold bind, lift in Hm.
  rewrite Hjson in Hm. apply collect_info_usable in Huse as [info Hinfo].
  unfold metadata_keys in Hinfo. rewrite Hinfo in Hm. by case_bool_decide.
Qed.

Lemma main_metadata_decodes W a s s' :
  main W a s = (s', inr tt) → opt_truthy (metadata a) = true →
  ∃ meta, json_loads W (default EmptyString (metadata a)) = inr meta
          ∧ metadata_usable meta = true.
Proof.
  intros (_ & _ & wf & Hm & _)%main_inv_full Ht.
  unfold apply_metadata in Hm. rewrite Ht in Hm. unfold bind, lift in Hm.
  destruct (json_loads W (default EmptyString (metadata a))) as [e|meta];
    [done |].
  exists meta. split; [done |]. apply collect_info_usable.
  unfold metadata_keys. cbv beta iota in Hm.
  destruct (collect_info _ _ _) as [e|info]; [done | by exists info].
Qed.

Lemma pages_at_elem (pgs : list page) idx pg :
  pg ∈ pages_at pgs idx → pg ∈ pgs.
Proof.
  unfold pages_at. intros (i & _ & Hi)%list_elem_of_omap.
  by eapply list_elem_of_lookup_2.
Qed.

Lemma bookmarks_of_bounds W a n l :
  Forall (λ b : string * Z,
            n ≤ b.2 ≤ n + sum_list (selected_count W a <$> l))
         (bookmarks_of W a n l).
Proof.
  revert n. induction l as [|x l IH]; intros n; [constructor |].
  cbn [bookmarks_of]. rewrite fmap_cons. cbn [sum_list].
  pose proof (selected_count_nonneg W a x) as Hx.
  assert (0 ≤ sum_list (selected_count W a <$> l)) as Hl.
  { clear. induction l as [|y l IH]; [done |]. rewrite fmap_cons.
    cbn [sum_list]. pose proof (selected_count_nonneg W a y). lia. }
  apply Forall_app. split.
  - destruct (skipped W a x.1); repeat constructor; cbn; lia.
  - eapply Forall_impl; [apply IH |]. intros b Hb. cbn in Hb. lia.
Qed.

Lemma bookmarks_of_sorted W a n l (i j : nat) (b1 b2 : string * Z) :
  (i < j)%nat →
  bookmarks_of W a n l !! i = Some b1 → bookmarks_of W a n l !! j = Some b2 →
  b1.2 ≤ b2.2.
Proof.
  revert n i j. induction l as [|x l IH]; intros n i j Hij; [done |].
  cbn [bookmarks_of].
  pose proof (selected_count_nonneg W a x) as Hx.
  destruct (skipped W a x.1); cbn [app]; [by apply IH |].
  destruct j as [|j]; [lia |]. cbn [lookup list_lookup].
  destruct i as [|i].
  - intros [= <-] H2. apply list_elem_of_lookup_2 in H2.
    pose proof (bookmarks_of_bounds W a (n + selected_count W a x) l) as Hb.
    rewrite Forall_forall in Hb. specialize (Hb b2 H2). cbn in *. lia.
  - cbn [lookup list_lookup]. apply IH. lia.
Qed.

Lemma selected_pages_sum W a l :
  Forall (input_ok W a) l →
  len (l ≫= selected_pages W a) = sum_list (selected_count W a <$> l).
Proof.
  induction 1 as [|x l Hx Hl IH]; [done |].
  rewrite bind_cons, len_app, fmap_cons, IH. cbn [sum_list].
  by rewrite selected_pages_length.
Qed.

(** *** Properties of the run *)

(** X8.  A missing input is fatal: once the inputs before it have gone
    through, the run prints [Missing file: p] on the standard error and
    exits with code 1; the path is not opened, the inputs after it are
    not looked at, and no file is written. *)
Theorem X8_missing_file_fatal W a pre p r post s :
  bad_range_count a = false →
  zip (inputs a) (normalize_ranges a) = pre ++ (p, r) :: post →
  Forall (input_ok W a) pre →
  path_exists W p = false →
  main W a s =
  (IO (stdout s ++ (pre ≫= input_lines W a))
      (stderr s ++ ["Missing file: " +:+ p])
      (events s ++ (pre ≫= input_events) ++ [EvExists p])
      (files s),
   inl (Py.SystemExit 1)).
Proof.
  intros Hb Hzip Hpre Hex.
  erewrite main_abort;
    [ | done | done | by apply process_inputs_spec
      | by apply process_input_missing ].
  cbn. by rewrite <- app_assoc.
Qed.

(** X9.  Without the flag that excludes encrypted inputs, an encrypted
    input on which [decrypt("")] raises, or one that cannot be opened
    undecrypted, is fatal: one line on the standard error, exit code 1,
    nothing written. *)
Theorem X9_encrypted_fatal W a pre p r post s :
  bad_range_count a = false →
  zip (inputs a) (normalize_ranges a) = pre ++ (p, r) :: post →
  Forall (input_ok W a) pre →
  path_exists W p = true → exclude_encrypted a = false →
  (PdfReader W p = inl Py.FileNotDecryptedError
   ∨ ∃ rd, PdfReader W p = inr rd ∧ decrypt_raises rd) →
  main W a s =
  (IO (stdout s ++ (pre ≫= input_lines W a))
      (stderr s ++ ["Encrypted file requires password: " +:+ p])
      (events s ++ (pre ≫= input_events) ++ [EvExists p; EvRead p])
      (files s),
   inl (Py.SystemExit 1)).
Proof.
  intros Hb Hzip Hpre Hex Hflag Henc.
  erewrite main_abort;
    [ | done | done | by apply process_inputs_spec
      | by apply process_input_encrypted ].
  cbn. by rewrite <- app_assoc.
Qed.

(** X10.  With encrypted inputs excluded, an input whose opening raises
    [FileNotDecryptedError] is passed over, the writer being left as it
    was; its notice is printed whether the run is quiet or not. *)
Theorem X10_undecrypted_open_skipped W a w p r s :
  path_exists W p = true → PdfReader W p = inl Py.FileNotDecryptedError →
  exclude_encrypted a = true →
  process_input W a w p r s =
  (IO (stdout s ++ ["Skipping encrypted: " +:+ p])
      (stderr s) (events s ++ [EvExists p; EvRead p]) (files s),
   inr w)
  ∧ stdout (process_input W a w p r s).1 ≠ stdout s.
Proof.
  intros Hex Hrd Hflag. rewrite process_input_undecrypted by done.
  split; [done |]. cbn. intros Heq.
  apply (f_equal length) in Heq. rewrite length_app in Heq. cbn in Heq. lia.
Qed.

(** X11.  The write of the output comes last: a run that stops at the
    check of the ranges, at an input or at the metadata has not tried to
    write and leaves the files as they were; a run that gets past these
    makes one write, of the output path, as its last call.  (The write
    itself is taken to succeed.) *)
Theorem X11_write_comes_last W a s :
  ∃ evs, Forall (λ ev, is_write ev = false) evs ∧
    match (main W a s).2 with
    | inl _ => files (main W a s).1 = files s
               ∧ events (main W a s).1 = events s ++ evs
    | inr _ => ∃ wf, files (main W a s).1 = <[output a := wf]> (files s)
                     ∧ events (main W a s).1 =
                       events s ++ evs ++ [EvWrite (output a)]
    end.
Proof.
  destruct (bad_range_count a) eqn:Hb.
  { rewrite main_refused by done. exists []. split; [constructor |].
    cbn. by rewrite app_nil_r. }
  rewrite main_unfold by done. unfold bind.
  pose proof (keeps_files_process_inputs W a
                (zip (inputs a) (normalize_ranges a)) new_writer s) as Hf.
  destruct (no_write_process_inputs W a
              (zip (inputs a) (normalize_ranges a)) new_writer s)
    as (evs & Hev & Hnw).
  exists evs. split; [done |].
  destruct (process_inputs _ _ _ _ s) as [s1 [e|w1]]; cbn in Hf, Hev; [done |].
  destruct (finish_cases W a w1 s1) as [(e & _ & ->)|(wf & _ & ->)]; cbn.
  - done.
  - exists wf. by rewrite Hf, Hev, app_assoc.
Qed.

(** X12.  The pages of the output of a run that ends well are the pages
    selected from the inputs, input after input in the order of the
    command line, each input's pages in the order of its resolved
    indices; every page of the output is a page of an input. *)
Theorem X12_output_pages W a s s' :
  main W a s = (s', inr tt) →
  ∃ wf, files s' !! output a = Some wf
        ∧ w_pages wf =
          zip (inputs a) (normalize_ranges a) ≫= selected_pages W a
        ∧ ∀ pg, pg ∈ w_pages wf →
                ∃ p rd, p ∈ inputs a ∧ PdfReader W p = inr rd
                        ∧ pg ∈ pages rd.
Proof.
  intros (_ & _ & wf & _ & Hp & _ & ->)%main_inv_full.
  exists wf. split; [apply lookup_insert_eq |]. split; [done |].
  intros pg. rewrite Hp. intros ([p r] & Hpg & Hin)%list_elem_of_bind.
  unfold selected_pages in Hpg. cbn [fst snd] in Hpg.
  destruct (skipped W a p); [by apply elem_of_nil in Hpg |].
  destruct (PdfReader W p) as [e|rd] eqn:Hrd; [by apply elem_of_nil in Hpg |].
  destruct (range_of r); [by apply elem_of_nil in Hpg |].
  exists p, rd. split; [| split; [done | by eapply pages_at_elem]].
  apply elem_of_zip_l in Hin. done.
Qed.


(** X14.  What a run that ends well has met: the number of ranges is
    accepted; every input exists and is either passed over or opened,
    not encrypted or decrypted without an error, with pages that can be
    listed and a range that parses; and the metadata, if given, decodes
    to a value in which the four keys can be looked for and, when found,
    looked up: an object, or a list or a string that holds none of
    them. *)
Theorem X14_success_requires W a s s' :
  main W a s = (s', inr tt) →
  bad_range_count a = false
  ∧ Forall (input_ok W a) (zip (inputs a) (normalize_ranges a))
  ∧ (opt_truthy (metadata a) = true →
     ∃ meta, json_loads W (default EmptyString (metadata a)) = inr meta
             ∧ metadata_usable meta = true).
Proof.
  intros H. pose proof (main_inv_full W a s s' H) as (Hb & Hall & _).
  split; [done |]. split; [done |]. by apply (main_metadata_decodes W a s s').
Qed.

(** X15.  With bookmarks on, the outline of the output has one entry
    for each input that was not passed over, in the order of the inputs,
    at the number of pages selected from the inputs before it; with
    bookmarks off the outline is empty. *)
Theorem X15_outline W a s s' :
  main W a s = (s', inr tt) →
  ∃ wf, files s' !! output a = Some wf
        ∧ w_outline wf =
          if bookmarks a
          then bookmarks_of W a 0 (zip (inputs a) (normalize_ranges a))
          else [].
Proof.
  intros (_ & _ & wf & _ & _ & Ho & ->)%main_inv_full.
  exists wf. split; [apply lookup_insert_eq | done].
Qed.

(** X16.  In the output of a run that ends well every bookmark points
    at a page number between 0 and the number of pages of the output,
    and the bookmarks are in ascending order of page number. *)
Theorem X16_outline_in_order W a s s' :
  main W a s = (s', inr tt) →
  ∃ wf, files s' !! output a = Some wf
        ∧ Forall (λ b : string * Z, 0 ≤ b.2 ≤ len (w_pages wf))
                 (w_outline wf)
        ∧ ∀ (i j : nat) b1 b2,
            (i < j)%nat → w_outline wf !! i = Some b1 →
            w_outline wf !! j = Some b2 → b1.2 ≤ b2.2.
Proof.
  intros (_ & Hall & wf & _ & Hp & Ho & ->)%main_inv_full.
  exists wf. split; [apply lookup_insert_eq |].
  rewrite Ho, Hp, (selected_pages_sum W a _ Hall).
  destruct (bookmarks a).
  - split; [| intros i j b1 b2; apply bookmarks_of_sorted].
    eapply Forall_impl; [apply (bookmarks_of_bounds W a 0) |].
    intros b Hb. cbn in *. lia.
  - split; [constructor | done].
Qed.

(** X17.  When the metadata given decodes to an object, the run gives
    the writer, for each of Title, Author, Subject and Keywords that the
    object has, the value of that key under the same name after a slash;
    every other entry of the information the writer holds is as in a new
    writer, so any other key of the object is dropped.  Without metadata
    nothing is given to the writer. *)
Theorem X17_metadata_entries W a s s' :
  main W a s = (s', inr tt) →
  ∃ wf, files s' !! output a = Some wf
        ∧ (opt_truthy (metadata a) = false →
           w_metadata wf = w_metadata (new_writer : PdfWriter page))
        ∧ ∀ meta : gmap string json,
            opt_truthy (metadata a) = true →
            json_loads W (default EmptyString (metadata a))
              = inr (JObj meta) →
            (∀ k, k ∈ metadata_keys →
                  w_metadata wf !! ("/" +:+ k) =
                  match meta !! k with
                  | Some v => Some v
                  | None =>
                      w_metadata (new_writer : PdfWriter page)
                        !! ("/" +:+ k)
                  end)
            ∧ (∀ key, (∀ k, k ∈ metadata_keys → key ≠ "/" +:+ k) →
                      w_metadata wf !! key =
                      w_metadata (new_writer : PdfWriter page) !! key).
Proof.
  intros (_ & _ & wf & Hm & _ & _ & ->)%main_inv_full.
  exists wf. split; [apply lookup_insert_eq |]. split.
  - intros Ht. unfold apply_metadata in Hm. rewrite Ht in Hm.
    by injection Hm as <-.
  - intros meta Ht Hjson.
    destruct (apply_metadata_lookup _ _ _ _ _ _ Ht Hjson Hm) as [Hin Hout].
    done.
Qed.

(** X18.  The standard output of a run that ends well: for each input in
    turn its notice when it is passed over, or its line of counts when
    the run is verbose, then [Wrote <output>] unless the run is quiet.
    The count of a verbose line is the number of pages added for that
    input.  A quiet run that is not verbose prints nothing, unless an
    input could not be opened undecrypted. *)
Theorem X18_stdout W a s s' :
  main W a s = (s', inr tt) →
  stdout s' =
    stdout s ++ (zip (inputs a) (normalize_ranges a) ≫= input_lines W a)
    ++ (if quiet a then [] else ["Wrote " +:+ output a])
  ∧ (∀ x, x ∈ zip (inputs a) (normalize_ranges a) →
          len (selected_pages W a x) = selected_count W a x)
  ∧ (quiet a = true → verbose a = false →
     (∀ p, p ∈ inputs a → PdfReader W p ≠ inl Py.FileNotDecryptedError) →
     stdout s' = stdout s).
Proof.
  intros (_ & Hall & wf & _ & _ & _ & ->)%main_inv_full.
  cbn [stdout]. split; [done |]. split.
  - intros x Hx. apply selected_pages_length.
    by apply (proj1 (Forall_forall _ _) Hall).
  - intros Hq Hv Hopen. rewrite Hq, app_nil_r.
    assert (zip (inputs a) (normalize_ranges a) ≫= input_lines W a = [])
      as ->; [| by rewrite app_nil_r].
    apply elem_of_nil_inv. intros line ([p r] & Hline & Hin)%list_elem_of_bind.
    pose proof (proj1 (Forall_forall _ _) Hall _ Hin) as [_ Hok].
    apply elem_of_zip_l in Hin. unfold input_lines in Hline.
    cbn [fst snd] in *. rewrite Hq, Hv in Hline.
    destruct (PdfReader W p) as [e|rd] eqn:Hrd.
    + destruct Hok as [Hs|(rd & ? & ? & _)]; [| done].
      apply skipped_cases in Hs as [_ [Hs|(rd & ? & _)]]; [| congruence].
      rewrite Hrd in Hs. injection Hs as ->. by destruct (Hopen p Hin).
    + destruct (skipped W a p); by apply elem_of_nil in Hline.
Qed.

(** X19.  The calls of a run that ends well: for each input in the
    order of the command line, one test that the path exists and then
    one opening of the document; then one write, of the output path,
    after all of that. *)
Theorem X19_call_order W a s s' :
  main W a s = (s', inr tt) →
  events s' =
    events s
    ++ (zip (inputs a) (normalize_ranges a)
          ≫= λ x, [EvExists x.1; EvRead x.1])
    ++ [EvWrite (output a)].
Proof.
  intros (_ & _ & wf & _ & _ & _ & ->)%main_inv_full. done.
Qed.

(** X20.  How a run fails, when the PDF library and the decoder do not
    exit by themselves: exit code 2 after the message about ranges when
    the number of ranges is refused; exit code 1 after one line that the
    program prints on the standard error, for a missing or an encrypted
    input; or an exception that is not caught, the program itself having
    printed nothing on the standard error. *)
Theorem X20_failures W a s s' e :
  world_sane W → main W a s = (s', inl e) →
  (e = Py.SystemExit 2 ∧ bad_range_count a = true
   ∧ stderr s' =
     stderr s ++ ["If using --range, supply one per input or a single range applied to all."])
  ∨ (e = Py.SystemExit 1 ∧ bad_range_count a = false
     ∧ ∃ line, stderr s' = stderr s ++ [line])
  ∨ (Py.is_Exception e = true ∧ bad_range_count a = false
     ∧ stderr s' = stderr s).
Proof.
  intros Hsane H.
  destruct (bad_range_count a) eqn:Hb.
  { rewrite main_refused in H by done. injection H as <- <-. by left. }
  right. rewrite main_unfold in H by done. unfold bind at 1 in H.
  destruct (process_inputs _ _ _ _ s) as [s1 [e1|w1]] eqn:E.
  - injection H as <- <-.
    apply process_inputs_inv_fail
      in E as (pre & p & r & post & s0 & w0 & _ & Hpre & Hfail).
    pose proof (process_inputs_inv_ok _ _ _ _ _ _ _ Hpre) as Hall.
    rewrite process_inputs_spec in Hpre by done. injection Hpre as <- _.
    destruct (process_input_fail _ _ _ _ _ _ _ _ Hsane Hfail)
      as [_ [[-> [line Hline]]|[Hexc Herr]]].
    + left. split; [done |]. split; [done |]. by exists line.
    + right. done.
  - pose proof (process_inputs_inv_ok _ _ _ _ _ _ _ E) as Hall.
    rewrite process_inputs_spec in E by done. injection E as <- _.
    match type of H with finish W a ?w ?t = _ =>
      destruct (finish_cases W a w t) as [(e0 & Hm & Hf)|(wf & _ & Hf)];
        rewrite Hf in H; [| done]
    end.
    injection H as <- <-. right. split; [| done].
    unfold apply_metadata in Hm. destruct (opt_truthy (metadata a)); [| done].
    unfold bind, lift in Hm.
    destruct (json_loads W (default EmptyString (metadata a))) as [e1|meta]
      eqn:Hjson.
    + injection Hm as <-. destruct e1; try done.
      destruct Hsane as (_ & _ & Hj). by destruct (Hj _ _ Hjson).
    + cbv beta iota in Hm.
      destruct (collect_info _ _ _) as [e1|info] eqn:Hinfo.
      * injection Hm as <-. by apply collect_info_exn in Hinfo.
      * by case_bool_decide.
Qed.


(** X22.  With encrypted inputs excluded, an encrypted input on which
    [decrypt("")] raises is passed over: its notice is printed unless
    the run is quiet, the writer is left as it was, and the run goes on
    as if the input were not on the command line.  When the other
    inputs are in order and the metadata, if any, can be used, the run
    ends well and its output has the pages and the bookmarks of the
    other inputs only. *)
Theorem X22_raising_decrypt_skipped W a p rd :
  path_exists W p = true → PdfReader W p = inr rd → decrypt_raises rd →
  exclude_encrypted a = true →
  (∀ w r s,
     process_input W a w p r s =
     (IO (stdout s ++
          (if quiet a then [] else ["Skipping encrypted: " +:+ p]))
         (stderr s) (events s ++ [EvExists p; EvRead p]) (files s),
      inr w))
  ∧ (∀ pre post r w s,
       outcome (process_inputs W a (pre ++ (p, r) :: post) w s) =
       outcome (process_inputs W a (pre ++ post) w s))
  ∧ (∀ ins rs pre post r s,
       bad_range_count a = false →
       bad_range_count (with_inputs a ins rs) = false →
       zip (inputs a) (normalize_ranges a) = pre ++ (p, r) :: post →
       zip ins (normalize_ranges (with_inputs a ins rs)) = pre ++ post →
       outcome (main W a s) = outcome (main W (with_inputs a ins rs) s))
  ∧ (∀ pre post r s,
       bad_range_count a = false →
       zip (inputs a) (normalize_ranges a) = pre ++ (p, r) :: post →
       Forall (input_ok W a) pre → Forall (input_ok W a) post →
       (opt_truthy (metadata a) = true →
        ∃ meta, json_loads W (default EmptyString (metadata a)) = inr meta
                ∧ metadata_usable meta = true) →
       ∃ s' wf,
         main W a s = (s', inr tt)
         ∧ files s' !! output a = Some wf
         ∧ w_pages wf = (pre ++ post) ≫= selected_pages W a
         ∧ w_outline wf =
           if bookmarks a then bookmarks_of W a 0 (pre ++ post) else []).
Proof.
  intros Hex Hrd Hfail Hskip. split; [| split; [| split]].
  - intros w r s. by apply process_input_skip with rd.
  - intros pre post r w s. by apply process_inputs_skip with rd.
  - intros ins rs pre post r s Hok Hok' Hzip Hzip'.
    rewrite !main_unfold by done.
    apply (outcome_bind _ _ (finish W a)); [apply framed_finish |].
    change (inputs (with_inputs a ins rs)) with ins.
    rewrite Hzip, Hzip', process_inputs_with_inputs.
    by apply process_inputs_skip with rd.
  - intros pre post r s Hb Hzip Hpre Hpost Hmeta.
    assert (skipped W a p = true) as Hsk.
    { unfold skipped. rewrite Hskip, Hrd.
      by destruct Hfail as (-> & e & -> & ->). }
    assert (Forall (input_ok W a) (zip (inputs a) (normalize_ranges a)))
      as Hall.
    { rewrite Hzip. apply Forall_app. split; [done |].
      constructor; [| done]. split; [done | by left]. }
    destruct (main_spec W a s Hb Hall Hmeta) as [s' Hmain].
    exists s'. assert (Hmain' := Hmain).
    apply main_inv_full in Hmain' as (_ & _ & wf & _ & Hp & Ho & Hs').
    exists wf. split; [done |]. rewrite Hs'.
    split; [apply lookup_insert_eq |]. rewrite Hzip in Hp, Ho. split.
    + rewrite Hp, !bind_app, bind_cons. unfold selected_pages at 2.
      cbn [fst]. by rewrite Hsk.
    + rewrite Ho. destruct (bookmarks a); [| done].
      by apply bookmarks_of_skip.
Qed.

(** X23.  What is enough for a run to end well, the writing of the
    output being taken to succeed: the number of ranges is accepted,
    every input exists and is either passed over or read with a range
    that parses, and the metadata, if given, decodes to a value that can
    be used.  The run then writes the output path and nothing else. *)
Theorem X23_success_suffices W a s :
  bad_range_count a = false →
  Forall (input_ok W a) (zip (inputs a) (normalize_ranges a)) →
  (opt_truthy (metadata a) = true →
   ∃ meta, json_loads W (default EmptyString (metadata a)) = inr meta
           ∧ metadata_usable meta = true) →
  ∃ s' wf, main W a s = (s', inr tt)
           ∧ files s' = <[output a := wf]> (files s).
Proof.
  intros Hb Hall Hmeta. destruct (main_spec W a s Hb Hall Hmeta) as [s' Hmain].
  exists s'. assert (Hmain' := Hmain).
  apply main_inv_full in Hmain' as (_ & _ & wf & _ & _ & _ & Hs').
  exists wf. split; [done |]. by rewrite Hs'.
Qed.

(** X24.  Metadata that decodes to something other than an object is
    not refused with a message: unless it is a list or a string that
    holds none of the four keys, the run stops on a [TypeError] that is
    not caught, after all the inputs have been read, and writes
    nothing. *)
Theorem X24_metadata_not_object W a s meta :
  bad_range_count a = false →
  Forall (input_ok W a) (zip (inputs a) (normalize_ranges a)) →
  opt_truthy (metadata a) = true →
  json_loads W (default EmptyString (metadata a)) = inr meta →
  metadata_usable meta = false →
  main W a s =
  (IO (stdout s ++ (zip (inputs a) (normalize_ranges a) ≫= input_lines W a))
      (stderr s)
      (events s ++ (zip (inputs a) (normalize_ranges a) ≫= input_events))
      (files s),
   inl Py.TypeError).
Proof.
  intros Hb Hall Ht Hjson Huse. rewrite main_unfold by done.
  unfold bind at 1. pose proof (main_loop W a s Hall) as Hloop.
  cbv zeta in Hloop. rewrite Hloop.
  unfold finish, apply_metadata, bind, lift. rewrite Ht, Hjson.
  apply collect_info_unusable in Huse. unfold metadata_keys in Huse.
  by rewrite Huse.
Qed.

(** C4.  With encrypted inputs excluded, an encrypted input that the
    empty password does not open is not passed over.  [decrypt("")]
    returns without raising and what it returns is not looked at, so
    neither handler runs; the pages are then asked for outside both
    [try] blocks, and the [FileNotDecryptedError] this raises is not
    caught.  The run stops there: no notice, the inputs after it not
    looked at, nothing written. *)
Theorem C4_locked_input_aborts W a p rd :
  path_exists W p = true → PdfReader W p = inr rd →
  is_encrypted rd = true → decrypt_empty rd = None →
  pages_error rd = Some Py.FileNotDecryptedError →
  exclude_encrypted a = true →
  (∀ w r s,
     process_input W a w p r s =
     (IO (stdout s) (stderr s) (events s ++ [EvExists p; EvRead p])
         (files s),
      inl Py.FileNotDecryptedError))
  ∧ (∀ pre post r s,
       bad_range_count a = false →
       zip (inputs a) (normalize_ranges a) = pre ++ (p, r) :: post →
       Forall (input_ok W a) pre →
       main W a s =
       (IO (stdout s ++ (pre ≫= input_lines W a)) (stderr s)
           (events s ++ (pre ≫= input_events) ++ [EvExists p; EvRead p])
           (files s),
        inl Py.FileNotDecryptedError)).
Proof.
  intros Hex Hrd Henc Hdec Hpg Hflag. split.
  - intros w r s.
    apply (process_input_unreadable _ _ _ _ _ _ rd); [done | done | | done].
    by right.
  - intros pre post r s Hb Hzip Hpre.
    erewrite main_abort;
      [ | done | done | by apply process_inputs_spec
        | apply (process_input_unreadable _ _ _ _ _ _ rd);
          [done | done | by right | done] ].
    cbn. by rewrite <- app_assoc.
Qed.

End DriverMore.

(** * More of the sample world *)

Section SamplesMore.

Lemma sample_A_ok a r :
  (∃ rng, range_of r = inr rng) → input_ok sample_world a ("A.pdf"%string, r).
Proof.
  intros [rng Hrng]. split; [reflexivity |]. right. exists A5, rng.
  split; [reflexivity |]. split; [| done]. split; [by left | done].
Qed.

Lemma sample_run_ok :
  main sample_world_meta sample_run_args io0 =
  ((main sample_world_meta sample_run_args io0).1, inr tt).
Proof. vm_compute. reflexivity. Qed.

Lemma sample_world_sane : world_sane sample_world.
Proof.
  split; [| split].
  - intros p c. cbn. repeat case_bool_decide; discriminate.
  - intros p rd c. cbn.
    repeat case_bool_decide; intros [= <-]; split; discriminate.
  - intros m c. discriminate.
Qed.

Lemma X8_witness :
  main sample_world
       (sample_args ["A.pdf"; "nowhere.pdf"; "docs/B.pdf"] None) io0
  = (IO [] ["Missing file: nowhere.pdf"%string]
        [EvExists "A.pdf"; EvRead "A.pdf"; EvExists "nowhere.pdf"] ∅,
     inl (Py.SystemExit 1)).
Proof.
  apply (X8_missing_file_fatal sample_world
           (sample_args ["A.pdf"; "nowhere.pdf"; "docs/B.pdf"] None)
           [("A.pdf"%string, None)] "nowhere.pdf" None
           [("docs/B.pdf"%string, None)] io0).
  - reflexivity.
  - reflexivity.
  - constructor; [| constructor]. apply sample_A_ok. by exists [].
  - reflexivity.
Defined.

Lemma X9_witness :
  main sample_world
       (Args ["locked.pdf"] "out.pdf" None false None false false false) io0
  = (IO [] ["Encrypted file requires password: locked.pdf"%string]
        [EvExists "locked.pdf"; EvRead "locked.pdf"] ∅,
     inl (Py.SystemExit 1)).
Proof.
  apply (X9_encrypted_fatal sample_world
           (Args ["locked.pdf"] "out.pdf" None false None false false false)
           [] "locked.pdf" None [] io0).
  - reflexivity.
  - reflexivity.
  - constructor.
  - reflexivity.
  - reflexivity.
  - right. exists locked. split; [reflexivity |].
    split; [reflexivity |]. exists Py.LibraryError. split; reflexivity.
Defined.

Lemma X10_witness :
  process_input sample_world_undecrypted
    (Args ["A.pdf"] "out.pdf" None false None true true false)
    new_writer "A.pdf" None io0
  = (IO ["Skipping encrypted: A.pdf"%string] []
        [EvExists "A.pdf"; EvRead "A.pdf"] ∅,
     inr new_writer).
Proof.
  apply (X10_undecrypted_open_skipped sample_world_undecrypted
           (Args ["A.pdf"] "out.pdf" None false None true true false)
           new_writer "A.pdf" None io0); reflexivity.
Defined.

Lemma X12_witness :
  ∃ wf,
    files (main sample_world_meta sample_run_args io0).1 !! "out.pdf"%string
      = Some wf
    ∧ w_pages wf = [1; 2; 3; 4; 5; 12; 13; 11]%nat.
Proof.
  destruct (X12_output_pages sample_world_meta sample_run_args io0 _
              sample_run_ok) as (wf & Hf & Hp & _).
  exists wf. split; [exact Hf |]. rewrite Hp. vm_compute. reflexivity.
Defined.


Lemma X15_witness :
  ∃ wf,
    files (main sample_world_meta sample_run_args io0).1 !! "out.pdf"%string
      = Some wf
    ∧ w_outline wf = [("A.pdf"%string, 0); ("B.pdf"%string, 5)].
Proof.
  destruct (X15_outline sample_world_meta sample_run_args io0 _
              sample_run_ok) as (wf & Hf & Ho).
  exists wf. split; [exact Hf |]. rewrite Ho. vm_compute. reflexivity.
Defined.

Lemma X16_witness :
  ∃ wf,
    files (main sample_world_meta sample_run_args io0).1 !! "out.pdf"%string
      = Some wf
    ∧ Forall (λ b : string * Z, 0 ≤ b.2 ≤ len (w_pages wf)) (w_outline wf).
Proof.
  destruct (X16_outline_in_order sample_world_meta sample_run_args io0 _
              sample_run_ok) as (wf & Hf & Hb & _).
  exists wf. split; [exact Hf | exact Hb].
Defined.

Lemma X17_witness :
  ∃ wf,
    files (main sample_world_meta sample_run_args io0).1 !! "out.pdf"%string
      = Some wf
    ∧ w_metadata wf !! "/Title"%string = Some (JStr "X")
    ∧ w_metadata wf !! "/Author"%string = None
    ∧ w_metadata wf !! "/Foo"%string = None
    ∧ w_metadata wf !! "Foo"%string = None.
Proof.
  destruct (X17_metadata_entries sample_world_meta sample_run_args io0 _
              sample_run_ok) as (wf & Hf & _ & Hm).
  destruct (Hm sample_meta eq_refl eq_refl) as [Hin Hout].
  exists wf. split; [exact Hf |].
  split.
  { etrans; [apply (Hin "Title"%string) |]; [| vm_compute; reflexivity].
    apply (list_elem_of_lookup_2 _ 0). reflexivity. }
  split.
  { etrans; [apply (Hin "Author"%string) |]; [| vm_compute; reflexivity].
    apply (list_elem_of_lookup_2 _ 1). reflexivity. }
  split; (rewrite Hout; [vm_compute; reflexivity |]); intros k Hk;
    unfold metadata_keys in Hk;
    repeat (apply elem_of_cons in Hk as [->|Hk]; [discriminate |]);
    destruct (proj1 (elem_of_nil _) Hk).
Defined.

Lemma X18_witness :
  stdout (main sample_world_meta sample_run_args io0).1 =
  ["A.pdf: 5 pages (range=ALL)"; "Skipping encrypted: locked.pdf";
   "docs/B.pdf: 3 pages (range=2-,1)"; "Wrote out.pdf"]%string.
Proof.
  destruct (X18_stdout sample_world_meta sample_run_args io0 _ sample_run_ok)
    as (Hout & _).
  rewrite Hout. vm_compute. reflexivity.
Defined.

Lemma X19_witness :
  events (main sample_world_meta sample_run_args io0).1 =
  [EvExists "A.pdf"; EvRead "A.pdf"; EvExists "locked.pdf";
   EvRead "locked.pdf"; EvExists "docs/B.pdf"; EvRead "docs/B.pdf";
   EvWrite "out.pdf"].
Proof.
  exact (X19_call_order sample_world_meta sample_run_args io0 _
           sample_run_ok).
Defined.

Lemma X20_witness :
  ∃ line,
    stderr (main sample_world
              (sample_args ["A.pdf"; "nowhere.pdf"] None) io0).1 = [line].
Proof.
  destruct (X20_failures sample_world
              (sample_args ["A.pdf"; "nowhere.pdf"] None) io0
              (main sample_world
                 (sample_args ["A.pdf"; "nowhere.pdf"] None) io0).1
              (Py.SystemExit 1) sample_world_sane)
    as [(He & _)|[(_ & _ & line & Hline)|(He & _)]].
  - vm_compute. reflexivity.
  - discriminate He.
  - exists line. exact Hline.
  - discriminate He.
Defined.


Lemma X14_witness :
  bad_range_count sample_run_args = false
  ∧ ∃ meta, json_loads sample_world_meta "meta" = inr meta
            ∧ metadata_usable meta = true.
Proof.
  destruct (X14_success_requires sample_world_meta sample_run_args io0 _
              sample_run_ok) as (Hb & _ & Hm).
  split; [exact Hb | exact (Hm eq_refl)].
Defined.

Lemma X22_witness :
  ∃ s' wf,
    main sample_world
         (sample_args ["A.pdf"; "locked.pdf"; "docs/B.pdf"] None) io0
      = (s', inr tt)
    ∧ files s' !! "out.pdf"%string = Some wf
    ∧ w_pages wf = [1; 2; 3; 4; 5; 11; 12; 13]%nat
    ∧ w_outline wf = [("A.pdf"%string, 0); ("B.pdf"%string, 5)].
Proof.
  destruct (X22_raising_decrypt_skipped sample_world
              (sample_args ["A.pdf"; "locked.pdf"; "docs/B.pdf"] None)
              "locked.pdf" locked) as (_ & _ & _ & H).
  - reflexivity.
  - reflexivity.
  - split; [reflexivity |]. exists Py.LibraryError. split; reflexivity.
  - reflexivity.
  - destruct (H [("A.pdf"%string, None)] [("docs/B.pdf"%string, None)]
                None io0) as (s' & wf & Hmain & Hf & Hp & Ho).
    + reflexivity.
    + reflexivity.
    + constructor; [| constructor]. apply sample_A_ok. by exists [].
    + constructor; [| constructor]. split; [reflexivity |].
      right. exists B3, []. split; [reflexivity |].
      split; [| reflexivity]. split; [left |]; reflexivity.
    + discriminate.
    + exists s', wf. split; [exact Hmain |]. split; [exact Hf |].
      split; [rewrite Hp | rewrite Ho]; vm_compute; reflexivity.
Defined.

Lemma X23_witness :
  ∃ s' wf,
    main sample_world
         (Args ["A.pdf"] "out.pdf" None true None false true false) io0
      = (s', inr tt)
    ∧ files s' = {[ "out.pdf"%string := wf ]}.
Proof.
  apply (X23_success_suffices sample_world
           (Args ["A.pdf"] "out.pdf" None true None false true false) io0).
  - reflexivity.
  - constructor; [| constructor]. apply sample_A_ok. by exists [].
  - discriminate.
Defined.

Lemma X24_witness :
  main sample_world_meta
       (Args ["A.pdf"] "out.pdf" None false (Some "7"%string)
             false false false) io0
  = (IO [] [] [EvExists "A.pdf"; EvRead "A.pdf"] ∅, inl Py.TypeError).
Proof.
  apply (X24_metadata_not_object sample_world_meta
           (Args ["A.pdf"] "out.pdf" None false (Some "7"%string)
                 false false false) io0 (JNum "7")).
  - reflexivity.
  - constructor; [| constructor]. split; [reflexivity |].
    right. exists A5, []. split; [reflexivity |].
    split; [| reflexivity]. split; [left |]; reflexivity.
  - reflexivity.
  - reflexivity.
  - reflexivity.
Defined.

Lemma C4_witness :
  main sample_world_sealed (sample_args ["A.pdf"; "sealed.pdf"] None) io0
  = (IO [] []
        [EvExists "A.pdf"; EvRead "A.pdf";
         EvExists "sealed.pdf"; EvRead "sealed.pdf"] ∅,
     inl Py.FileNotDecryptedError).
Proof.
  destruct (C4_locked_input_aborts sample_world_sealed
              (sample_args ["A.pdf"; "sealed.pdf"] None)
              "sealed.pdf" sealed) as [_ H].
  - reflexivity.
  - reflexivity.
  - reflexivity.
  - reflexivity.
  - reflexivity.
  - reflexivity.
  - apply (H [("A.pdf"%string, None)] [] None io0).
    + reflexivity.
    + reflexivity.
    + constructor; [| constructor]. split; [reflexivity |].
      right. exists A5, []. split; [reflexivity |].
      split; [| reflexivity]. split; [left |]; reflexivity.
Defined.

End SamplesMore.
